(** * Interval shape utilities of G2: [src/geometry/shape/interval/util.ts]

    A shallow embedding of the five exported functions

      - [parseRadius]          (radius normalizer)
      - [getRectPoints]        (point deriver)
      - [getRectPath]          (straight path emitter)
      - [getIntervalRectPath]  (rounded path emitter)
      - [getFunnelPath]        (funnel path emitter)

    together with the properties the specification states about them.

    Modelling choices.

    - JavaScript numbers are kept abstract ([JsNumber]): the functions only
      add, subtract, multiply, divide and compare them, so every structural
      statement holds for any interpretation of the arithmetic.  [Float64]
      interprets them as the source does, as IEEE 754 doubles; the
      statements that depend on the arithmetic are proved there, from the
      specification of the primitive floats, and every concrete input is a
      list of doubles.
    - [undefined] is a value ([Undefined]): reading a list of numbers past
      its end yields it, arithmetic turns it into NaN.
    - Reading a list of points past its end yields [undefined] too, and the
      property access that follows in the source ([points[i].x]) raises a
      [TypeError]; fallible functions return in the [result] monad.
    - A path command is the JavaScript array the source builds: a tag string
      followed by numbers. *)

From Stdlib Require Import List String Bool Arith ZArith Lia.
From Stdlib Require PrimFloat SpecFloat FloatOps FloatAxioms.
Import ListNotations.

Set Implicit Arguments.

Local Open Scope nat_scope.

(* ================================================================== *)
(** ** Numbers and values *)

(** The operations of JavaScript numbers the source uses.  [lit] is an
    integer literal, [strict_eq] is [===] on two numbers. *)
Class JsNumber : Type := {
  num : Type;
  add : num -> num -> num;
  sub : num -> num -> num;
  mul : num -> num -> num;
  div : num -> num -> num;
  lit : Z -> num;
  nan : num;
  strict_eq : num -> num -> bool
}.

Section Model.

Context {JN : JsNumber}.

(** A JavaScript value that is a number or [undefined]. *)
Inductive value : Type :=
| Undefined
| Num (n : num).

(** [ToNumber]: [undefined] becomes NaN. *)
Definition toNumber (v : value) : num :=
  match v with
  | Num n => n
  | Undefined => nan
  end.

Definition vadd (a b : value) : value := Num (add (toNumber a) (toNumber b)).
Definition vsub (a b : value) : value := Num (sub (toNumber a) (toNumber b)).
Definition vmul (a b : value) : value := Num (mul (toNumber a) (toNumber b)).
Definition vdiv (a b : value) : value := Num (div (toNumber a) (toNumber b)).

(** [a !== b] on values: values of different types are never equal. *)
Definition strict_neq (a b : value) : bool :=
  match a, b with
  | Undefined, Undefined => false
  | Num m, Num n => negb (strict_eq m n)
  | _, _ => true
  end.

(** [ToBoolean] of a number: false for zero and for NaN, the only number
    that is not [===] to itself. *)
Definition truthy_num (n : num) : bool :=
  negb (strict_eq n (lit 0)) && strict_eq n n.

Definition is_num (v : value) : Prop :=
  match v with
  | Num _ => True
  | Undefined => False
  end.

(** A value of TypeScript type [number | number[]], possibly absent. *)
Inductive NumberOrArray : Type :=
| Scalar (v : value)
| Arr (l : list num).

(** [ToBoolean]: every array is truthy, also the empty one. *)
Definition truthy (r : NumberOrArray) : bool :=
  match r with
  | Scalar Undefined => false
  | Scalar (Num n) => truthy_num n
  | Arr _ => true
  end.

(** [l[i]] on a list of numbers: [undefined] past the end. *)
Definition idx (l : list num) (i : nat) : value :=
  match nth_error l i with
  | Some n => Num n
  | None => Undefined
  end.

(** [l[i]] on a list of values, as array destructuring reads it. *)
Definition vidx (l : list value) (i : nat) : value :=
  nth i l Undefined.

(* ================================================================== *)
(** ** Exceptions *)

Inductive result (A : Type) : Type :=
| Ok (a : A)
| TypeError.

Arguments Ok {A} a.
Arguments TypeError {A}.

Definition bind {A B : Type} (m : result A) (k : A -> result B) : result B :=
  match m with
  | Ok a => k a
  | TypeError => TypeError
  end.

Notation "x <- m ;; k" := (bind m (fun x => k))
  (at level 61, m at next level, right associativity).

(* ================================================================== *)
(** ** Data model *)

(** [Point]: the fields [x] and [y] of the source. *)
Record Point : Type := mkPoint { px : value; py : value }.

(** [ShapePoint]: [x] and [y] are a number or a range, [y0] and [size]
    are optional numbers. *)
Record ShapePoint : Type := mkShapePoint {
  sp_x : NumberOrArray;
  sp_y : NumberOrArray;
  sp_y0 : value;
  sp_size : value
}.

(** One entry of a path command array. *)
Inductive elem : Type :=
| Tag (s : string)
| Arg (v : value).

Definition PathCommand : Type := list elem.
Definition Path : Type := list PathCommand.

Definition n0 : value := Num (lit 0).
Definition n1 : value := Num (lit 1).
Definition n2 : value := Num (lit 2).

(** [['M', x, y]], [['L', x, y]], [['A', rx, ry, rot, large, sweep, x, y]],
    [['z']] and [['Z']]. *)
Definition M (a b : value) : PathCommand := [Tag "M"; Arg a; Arg b].
Definition L (a b : value) : PathCommand := [Tag "L"; Arg a; Arg b].
Definition A (rx ry rot large sweep a b : value) : PathCommand :=
  [Tag "A"; Arg rx; Arg ry; Arg rot; Arg large; Arg sweep; Arg a; Arg b].
Definition Close : PathCommand := [Tag "z"].
Definition CloseZ : PathCommand := [Tag "Z"].

(** [path.push(c)]. *)
Definition push (path : Path) (c : PathCommand) : Path := path ++ [c].

(** [points[i]] followed by a property access: a [TypeError] past the end. *)
Definition item (points : list Point) (i : nat) : result Point :=
  match nth_error points i with
  | Some p => Ok p
  | None => TypeError
  end.

(** The coordinate system, an external collaborator: its dimensions, its
    [type], the [isTransposed] flag, and the two mappings, which compute on
    the two coordinates of the point they are given. *)
Record Coordinate : Type := mkCoordinate {
  getWidth : num;
  getHeight : num;
  type : string;
  isTransposed : bool;
  convert : num -> num -> num * num;
  invertPoint : num -> num -> num * num
}.

(** [coor.convert(p)] and [coor.invertPoint({x, y})] on points. *)
Definition convertP (coor : Coordinate) (p : Point) : Point :=
  let '(a, b) := convert coor (toNumber (px p)) (toNumber (py p)) in
  mkPoint (Num a) (Num b).

Definition invertP (coor : Coordinate) (p : Point) : Point :=
  let '(a, b) := invertPoint coor (toNumber (px p)) (toNumber (py p)) in
  mkPoint (Num a) (Num b).

(** [style?: { radius?: number | number[] }]. *)
Record Style : Type := mkStyle { radius : NumberOrArray }.

(** [style?.radius]. *)
Definition style_radius (style : option Style) : NumberOrArray :=
  match style with
  | Some s => radius s
  | None => Scalar Undefined
  end.

(** A parameter with a default value: [undefined] selects the default. *)
Definition default (d : bool) (o : option bool) : bool :=
  match o with
  | Some b => b
  | None => d
  end.

(* ================================================================== *)
(** ** parseRadius *)

Definition parseRadius (radius : NumberOrArray) : list value :=
  match radius with
  | Arr l =>
      if List.length l =? 1 then
        let r := idx l 0 in [r; r; r; r]
      else if List.length l =? 2 then
        [idx l 0; idx l 1; idx l 0; idx l 1]
      else if List.length l =? 3 then
        [idx l 0; idx l 1; idx l 2; idx l 1]
      else
        [idx l 0; idx l 1; idx l 2; idx l 3]
  | Scalar v => [v; v; v; v]
  end.

(* ================================================================== *)
(** ** getRectPoints *)

Definition getRectPoints (pointInfo : ShapePoint) (isPyramid : option bool)
  : list Point :=
  let x := sp_x pointInfo in
  let y := sp_y pointInfo in
  let y0 := sp_y0 pointInfo in
  let size := sp_size pointInfo in
  let '(yMin, yMax) :=
    match y with
    | Arr l => (idx l 0, idx l 1)
    | Scalar v => (y0, v)
    end in
  let '(xMin, xMax) :=
    match x with
    | Arr l => (idx l 0, idx l 1)
    | Scalar v => (vsub v (vdiv size n2), vadd v (vdiv size n2))
    end in
  let points := [mkPoint xMin yMin; mkPoint xMin yMax] in
  if default false isPyramid then
    points ++ [mkPoint xMax (vdiv (vadd yMax yMin) n2)]
  else
    points ++ [mkPoint xMax yMax; mkPoint xMax yMin].

(* ================================================================== *)
(** ** getRectPath *)

(** The loop [for (i = ..; i < len; i++) path.push(['L', points[i].x,
    points[i].y])], with [n] iterations left. *)
Fixpoint pushLines (points : list Point) (i n : nat) (path : Path)
  : result Path :=
  match n with
  | O => Ok path
  | S n' =>
      p <- item points i ;;
      pushLines points (S i) n' (push path (L (px p) (py p)))
  end.

Definition getRectPath (points : list Point) (isClosed : option bool)
  : result Path :=
  let path := [] in
  firstPoint <- item points 0 ;;
  let path := push path (M (px firstPoint) (py firstPoint)) in
  path <- pushLines points 1 (List.length points - 1) path ;;
  if default true isClosed then
    let path := push path (L (px firstPoint) (py firstPoint)) in
    let path := push path Close in
    Ok path
  else
    Ok path.

(* ================================================================== *)
(** ** getIntervalRectPath *)

(** [lineCap === 'round']; an absent [lineCap] is [undefined]. *)
Definition is_round (lineCap : option string) : bool :=
  match lineCap with
  | Some s => String.eqb s "round"
  | None => false
  end.

(** Source lines 134-147, the branch [lineCap === 'round']. *)
Definition roundCapPath (points : list Point) (isRect : bool) (r ry : value)
  : result Path :=
  let path := [] in
  path <-
    (if isRect then
       p0 <- item points 0 ;;
       let path := push path (M (px p0) (vadd (py p0) ry)) in
       p1 <- item points 1 ;;
       let path := push path (L (px p1) (vsub (py p1) ry)) in
       p2 <- item points 2 ;;
       let path := push path (A r r n0 n0 n1 (px p2) (vsub (py p2) ry)) in
       p3 <- item points 3 ;;
       let path := push path (L (px p3) (vadd (py p3) ry)) in
       p0 <- item points 0 ;;
       let path := push path (A r r n0 n0 n1 (px p0) (vadd (py p0) ry)) in
       Ok path
     else
       p0 <- item points 0 ;;
       let path := push path (M (px p0) (py p0)) in
       p1 <- item points 1 ;;
       let path := push path (L (px p1) (py p1)) in
       p2 <- item points 2 ;;
       let path := push path (A r r n0 n0 n1 (px p2) (py p2)) in
       p3 <- item points 3 ;;
       let path := push path (L (px p3) (py p3)) in
       p0 <- item points 0 ;;
       let path := push path (A r r n0 n0 n1 (px p0) (py p0)) in
       Ok path) ;;
  Ok (push path Close).

(** [ToNumber] of what [const [x, y] = p.slice(-2)] binds: a missing entry
    is [undefined], and the tags of this file are not numerals; both give
    NaN once [invertPoint] computes on them. *)
Definition elemToNumber (e : option elem) : num :=
  match e with
  | Some (Arg v) => toNumber v
  | Some (Tag _) => nan
  | None => nan
  end.

(** [p.slice(-2)]: the last two entries, or all of [p] when it is shorter. *)
Definition slice_last2 (p : PathCommand) : list elem :=
  skipn (List.length p - 2) p.

(** [p.splice(-2, 2, a, b)]: the last two entries are removed and [a], [b]
    appended. *)
Definition splice_last2 (p : PathCommand) (a b : elem) : PathCommand :=
  firstn (List.length p - 2) p ++ [a; b].

(** The body of [path.forEach] at source lines 162-166. *)
Definition invertCommand (coor : Coordinate) (p : PathCommand) : PathCommand :=
  let xy := slice_last2 p in
  let '(ix, iy) :=
    invertPoint coor (elemToNumber (nth_error xy 0))
                     (elemToNumber (nth_error xy 1)) in
  splice_last2 p (Arg (Num ix)) (Arg (Num iy)).

(** Source lines 149-160: the rounded rectangle in visual space. *)
Definition radiusVisualPath (points : list Point) (coor : Coordinate)
           (rad : NumberOrArray) : result Path :=
  let path := [] in
  let rs := parseRadius rad in
  let r1 := vidx rs 0 in
  let r2 := vidx rs 1 in
  let r3 := vidx rs 2 in
  let r4 := vidx rs 3 in
  let converted := map (convertP coor) points in
  c0 <- item converted 0 ;;
  let path := push path (M (px c0) (vsub (py c0) r1)) in
  c1 <- item converted 1 ;;
  let path := push path (L (px c1) (vadd (py c1) r2)) in
  let path :=
    if strict_neq r2 n0
    then push path (A r2 r2 n0 n0 n1 (vadd (px c1) r2) (py c1)) else path in
  c2 <- item converted 2 ;;
  let path := push path (L (vsub (px c2) r3) (py c2)) in
  let path :=
    if strict_neq r3 n0
    then push path (A r3 r3 n0 n0 n1 (px c2) (vadd (py c2) r3)) else path in
  c3 <- item converted 3 ;;
  let path := push path (L (px c3) (vsub (py c3) r4)) in
  let path :=
    if strict_neq r4 n0
    then push path (A r4 r4 n0 n0 n1 (vsub (px c3) r4) (py c3)) else path in
  c0 <- item converted 0 ;;
  let path := push path (L (vadd (px c0) r1) (py c0)) in
  let path :=
    if strict_neq r1 n0
    then push path (A r1 r1 n0 n0 n1 (px c0) (vsub (py c0) r1)) else path in
  Ok path.

(** Source lines 149-168, the branch [style?.radius]. *)
Definition radiusPath (points : list Point) (coor : Coordinate)
           (rad : NumberOrArray) : result Path :=
  path <- radiusVisualPath points coor rad ;;
  let path := map (invertCommand coor) path in
  Ok (push path Close).

Definition getIntervalRectPath (points : list Point) (lineCap : option string)
           (coor : Coordinate) (style : option Style) : result Path :=
  let width := getWidth coor in
  let height := getHeight coor in
  let isRect := String.eqb (type coor) "rect" in
  p2 <- item points 2 ;;
  p1 <- item points 1 ;;
  let r := vdiv (vsub (px p2) (px p1)) n2 in
  let ry :=
    if isTransposed coor
    then vdiv (vmul r (Num height)) (Num width)
    else vdiv (vmul r (Num width)) (Num height) in
  if is_round lineCap then
    roundCapPath points isRect r ry
  else if truthy (style_radius style) then
    radiusPath points coor (style_radius style)
  else
    getRectPath points None.

(* ================================================================== *)
(** ** getFunnelPath *)

(** [nextPoints] is [None] when the source's [isNil(nextPoints)] holds. *)
Definition getFunnelPath (points : list Point) (nextPoints : option (list Point))
           (isPyramid : bool) : result Path :=
  let path := [] in
  match nextPoints with
  | Some nextPoints =>
      p0 <- item points 0 ;;
      p1 <- item points 1 ;;
      q1 <- item nextPoints 1 ;;
      q0 <- item nextPoints 0 ;;
      Ok (path ++ [M (px p0) (py p0); L (px p1) (py p1);
                   L (px q1) (py q1); L (px q0) (py q0); CloseZ])
  | None =>
      if isPyramid then
        p0 <- item points 0 ;;
        p1 <- item points 1 ;;
        p2 <- item points 2 ;;
        p2' <- item points 2 ;;
        Ok (path ++ [M (px p0) (py p0); L (px p1) (py p1);
                     L (px p2) (py p2); L (px p2') (py p2'); CloseZ])
      else
        p0 <- item points 0 ;;
        p1 <- item points 1 ;;
        p2 <- item points 2 ;;
        p3 <- item points 3 ;;
        Ok (path ++ [M (px p0) (py p0); L (px p1) (py p1);
                     L (px p2) (py p2); L (px p3) (py p3); CloseZ])
  end.

End Model.

(* ================================================================== *)
(** ** The numbers of the source: IEEE 754 binary64

    A JavaScript number is a double: the primitive floats of Rocq, with
    their operations rounding to nearest even, one NaN, two zeros and two
    infinities.  [===] on numbers is [PrimFloat.eqb]: NaN is equal to
    nothing, and the two zeros are equal. *)

(** The double written as the positive integer literal [p]; exact below
    2^53. *)
Fixpoint float_of_pos (p : positive) : PrimFloat.float :=
  match p with
  | xH => PrimFloat.one
  | xO q => PrimFloat.mul PrimFloat.two (float_of_pos q)
  | xI q =>
      PrimFloat.add (PrimFloat.mul PrimFloat.two (float_of_pos q)) PrimFloat.one
  end.

Definition float_of_Z (z : Z) : PrimFloat.float :=
  match z with
  | Z0 => PrimFloat.zero
  | Zpos p => float_of_pos p
  | Zneg p => PrimFloat.opp (float_of_pos p)
  end.

#[export] Instance Float64 : JsNumber := {|
  num := PrimFloat.float;
  add := PrimFloat.add;
  sub := PrimFloat.sub;
  mul := PrimFloat.mul;
  div := PrimFloat.div;
  lit := float_of_Z;
  nan := PrimFloat.nan;
  strict_eq := PrimFloat.eqb
|}.

(** The double [z] and the point [(a, b)]. *)
Definition fl (z : Z) : @value Float64 := Num (float_of_Z z).
Definition fpt (a b : Z) : @Point Float64 := mkPoint (fl a) (fl b).

(* ================================================================== *)
(** ** Statements of the specification, in its own words *)

Section SpecSide.

Context {JN : JsNumber}.

(** Specification 4.2, step 1: the vertical extent [(yMin, yMax)]. *)
Definition spec_yExtent (sp : ShapePoint) : value * value :=
  match sp_y sp with
  | Arr l => (idx l 0, idx l 1)
  | Scalar v => (sp_y0 sp, v)
  end.

(** Specification 4.2, step 2: the horizontal extent [(xMin, xMax)]. *)
Definition spec_xExtent (sp : ShapePoint) : value * value :=
  match sp_x sp with
  | Arr l => (idx l 0, idx l 1)
  | Scalar v => (vsub v (vdiv (sp_size sp) n2), vadd v (vdiv (sp_size sp) n2))
  end.

(** Specification 4.2, steps 3-5: the outline in its fixed order. *)
Definition spec_rectPoints (sp : ShapePoint) (isPyramid : bool) : list Point :=
  let '(yMin, yMax) := spec_yExtent sp in
  let '(xMin, xMax) := spec_xExtent sp in
  mkPoint xMin yMin :: mkPoint xMin yMax ::
  (if isPyramid
   then [mkPoint xMax (vdiv (vadd yMin yMax) n2)]
   else [mkPoint xMax yMax; mkPoint xMax yMin]).

(** [Move] and [Line] to a point. *)
Definition moveTo (p : Point) : PathCommand := M (px p) (py p).
Definition lineTo (p : Point) : PathCommand := L (px p) (py p).

(** A command is an arc when its tag is ["A"]. *)
Definition is_arc (c : PathCommand) : bool :=
  match c with
  | Tag s :: _ => String.eqb s "A"
  | _ => false
  end.

(** [Close] is written ['z'] or ['Z']. *)
Definition is_close (c : PathCommand) : bool :=
  match c with
  | [Tag s] => String.eqb s "z" || String.eqb s "Z"
  | _ => false
  end.

(** *** Per-corner radius mode (specification 4.4) *)

(** The arc a corner of radius [r] contributes: a circular arc, radii
    [r], [r] and sweep flag 1, when [r] is not zero, and nothing when it
    is. *)
Definition spec_cornerArc (r a b : value) : list PathCommand :=
  if strict_neq r n0 then [A r r n0 n0 n1 a b] else [].

(** The rounded rectangle in visual space, on the converted key points
    [c0] (bottom-left), [c1] (top-left), [c2] (top-right) and [c3]
    (bottom-right). *)
Definition spec_roundedVisual (c0 c1 c2 c3 : Point) (r1 r2 r3 r4 : value)
  : Path :=
  [M (px c0) (vsub (py c0) r1); L (px c1) (vadd (py c1) r2)] ++
  spec_cornerArc r2 (vadd (px c1) r2) (py c1) ++
  [L (vsub (px c2) r3) (py c2)] ++
  spec_cornerArc r3 (px c2) (vadd (py c2) r3) ++
  [L (px c3) (vsub (py c3) r4)] ++
  spec_cornerArc r4 (vsub (px c3) r4) (py c3) ++
  [L (vadd (px c0) r1) (py c0)] ++
  spec_cornerArc r1 (px c0) (vsub (py c0) r1).

(** The trailing coordinate pair of a [Move], [Line] or [Arc] replaced by
    its image under [invertPoint]. *)
Definition spec_invertTrailing (coor : Coordinate) (c : PathCommand)
  : PathCommand :=
  match c with
  | [Tag t; Arg a; Arg b] =>
      let q := invertP coor (mkPoint a b) in
      [Tag t; Arg (px q); Arg (py q)]
  | [Tag t; rx; ry; rot; large; sweep; Arg a; Arg b] =>
      let q := invertP coor (mkPoint a b) in
      [Tag t; rx; ry; rot; large; sweep; Arg (px q); Arg (py q)]
  | _ => c
  end.

(** The commands the per-corner branch pushes are [Move], [Line] and [Arc]
    commands: each ends with a coordinate pair. *)
Inductive coordinate_command : PathCommand -> Prop :=
| cc_3 (t : string) (a b : value) : coordinate_command [Tag t; Arg a; Arg b]
| cc_A (rx ry rot large sweep a b : value) :
    coordinate_command (A rx ry rot large sweep a b).

(** *** The three modes of the rounded emitter (specification 4.4) *)

Inductive Mode : Type := RoundCap | PerCorner | Straight.

(** "The style specifies a radius": the style is present and carries a
    [radius]. *)
Definition spec_specifies_radius (style : option Style) : bool :=
  match style_radius style with
  | Scalar Undefined => false
  | _ => true
  end.

(** The precedence as the specification words it. *)
Definition spec_mode (lineCap : option string) (style : option Style) : Mode :=
  if is_round lineCap then RoundCap
  else if spec_specifies_radius style then PerCorner
  else Straight.

(** The precedence with the test the source makes: the radius is a list,
    or a number other than zero and NaN. *)
Definition mode_of (lineCap : option string) (style : option Style) : Mode :=
  if is_round lineCap then RoundCap
  else if truthy (style_radius style) then PerCorner
  else Straight.

(** What each mode returns on the four key points. *)
Definition path_of_mode (m : Mode) (p0 p1 p2 p3 : Point) (coor : Coordinate)
           (style : option Style) : result Path :=
  let points := [p0; p1; p2; p3] in
  let r := vdiv (vsub (px p2) (px p1)) n2 in
  let ry :=
    if isTransposed coor
    then vdiv (vmul r (Num (getHeight coor))) (Num (getWidth coor))
    else vdiv (vmul r (Num (getWidth coor))) (Num (getHeight coor)) in
  match m with
  | RoundCap => roundCapPath points (String.eqb (type coor) "rect") r ry
  | PerCorner => radiusPath points coor (style_radius style)
  | Straight => getRectPath points (Some true)
  end.

(** *** Well-formed input (specification 3 and 7) *)

(** A RadiusSpec: a number, or a list of one to four numbers. *)
Definition wf_radius (r : NumberOrArray) : Prop :=
  match r with
  | Scalar v => is_num v
  | Arr l => 1 <= List.length l <= 4
  end.

(** A ShapePoint: [x] and [y] are a number or a range of two numbers; a
    scalar [y] comes with the baseline [y0], a scalar [x] with [size]. *)
Definition wf_shapePoint (sp : ShapePoint) : Prop :=
  match sp_y sp with
  | Scalar v => is_num v /\ is_num (sp_y0 sp)
  | Arr l => List.length l = 2
  end /\
  match sp_x sp with
  | Scalar v => is_num v /\ is_num (sp_size sp)
  | Arr l => List.length l = 2
  end.

(** Both coordinates of a point are numbers. *)
Definition num_point (p : Point) : Prop := is_num (px p) /\ is_num (py p).

(** [invertPoint] is a left inverse of [convert]. *)
Definition left_inverse (coor : Coordinate) : Prop :=
  forall a b : num,
    invertPoint coor (fst (convert coor a b)) (snd (convert coor a b)) = (a, b).

End SpecSide.

(* ================================================================== *)
(** ** Concrete inputs *)

(** The square with corners (0,0), (0,2), (2,2), (2,0). *)
Definition square : list (@Point Float64) :=
  [fpt 0 0; fpt 0 2; fpt 2 2; fpt 2 0].

(** A 100 by 100 rectangular coordinate system that moves a point by
    (10, 20) and back. *)
Definition shift_coor : @Coordinate Float64 :=
  mkCoordinate (lit 100) (lit 100) "rect" false
    (fun a b => (add a (lit 10), add b (lit 20)))
    (fun a b => (sub a (lit 10), sub b (lit 20))).

(** A coordinate system whose [invertPoint] does not undo [convert]. *)
Definition skew_coor : @Coordinate Float64 :=
  mkCoordinate (lit 100) (lit 100) "rect" false
    (fun a b => (add a (lit 1), b))
    (fun a b => (a, b)).

(** The styles [{ radius: 0 }], [{ radius: 1 }] and
    [{ radius: [0, 0, 0, 0] }]. *)
Definition style_zero : option (@Style Float64) :=
  Some (mkStyle (Scalar (fl 0))).
Definition style_one : option (@Style Float64) :=
  Some (mkStyle (Scalar (fl 1))).
Definition style_zeros : option (@Style Float64) :=
  Some (mkStyle (Arr [lit 0; lit 0; lit 0; lit 0])).

(** A bar at [x = 10] of [size] 4 from [y0 = 2] to [y = 6]. *)
Definition bar : @ShapePoint Float64 :=
  mkShapePoint (Scalar (fl 10)) (Scalar (fl 6)) (fl 2) (fl 4).

(* ================================================================== *)
(** ** Reading a path back *)

Arguments TypeError {A}.

Section Observers.

Context {JN : JsNumber}.

(** The point a command ends at: its trailing coordinate pair. *)
Definition endpoint (c : PathCommand) : option Point :=
  match slice_last2 c with
  | [Arg a; Arg b] => Some (mkPoint a b)
  | _ => None
  end.

(** The points a path visits, in order; [Close] visits none. *)
Definition vertices (path : Path) : list Point :=
  flat_map (fun c => match endpoint c with
                     | Some p => [p]
                     | None => []
                     end) path.

(** A command is a [Move] when its tag is ["M"]. *)
Definition is_move (c : PathCommand) : bool :=
  match c with
  | Tag s :: _ => String.eqb s "M"
  | _ => false
  end.

(** How many of the radii are not [=== 0]. *)
Definition nonzero_count (rs : list value) : nat :=
  List.length (filter (fun r => strict_neq r n0) rs).

End Observers.

(** A pyramid tip: three key points. *)
Definition tip : list (@Point Float64) := [fpt 0 0; fpt 0 2; fpt 2 1].

(** The level below [square] in a funnel. *)
Definition lower : list (@Point Float64) :=
  [fpt 2 0; fpt 2 2; fpt 4 2; fpt 4 0].

(** The 100 by 100 rectangular coordinate system whose two mappings are
    the identity: [invertPoint] undoes [convert] on every double. *)
Definition unit_coor : @Coordinate Float64 :=
  mkCoordinate (lit 100) (lit 100) "rect" false
    (fun a b => (a, b))
    (fun a b => (a, b)).

(** The point [(-0, b)]. *)
Definition npt (b : Z) : @Point Float64 :=
  mkPoint (Num PrimFloat.neg_zero) (fl b).

(** The square with its left edge at [x = -0]: the corners (-0,0), (-0,2),
    (2,2), (2,0). *)
Definition signed_square : list (@Point Float64) :=
  [npt 0; npt 2; fpt 2 2; fpt 2 0].

(** The class of every number of every command of a result: it tells the
    two zeros apart. *)
Definition classes (r : result (@Path Float64))
  : list (list (option FloatClass.float_class)) :=
  match r with
  | Ok path =>
      map (map (fun e => match e with
                         | Arg (Num x) => Some (PrimFloat.classify x)
                         | _ => None
                         end)) path
  | TypeError => []
  end.

(* ================================================================== *)
(** ** Conditions and comparisons the statements use *)

Section Conditions.

Context {JN : JsNumber}.

(** Two numbers are the same number: identical, or equal under [===] (the
    two zeros are). *)
Definition same_number (a b : num) : Prop :=
  a = b \/ strict_eq a b = true \/ strict_eq b a = true.

Definition same_value (a b : value) : Prop :=
  match a, b with
  | Num m, Num n => same_number m n
  | Undefined, Undefined => True
  | _, _ => False
  end.

(** Two points are the same point of the plane. *)
Definition same_point (p q : Point) : Prop :=
  same_value (px p) (px q) /\ same_value (py p) (py q).

(** Adding or subtracting a number that is [=== 0] gives the same number. *)
Definition zero_shift_law : Prop :=
  forall r a : num,
    strict_eq r (lit 0) = true ->
    same_number (add a r) a /\ same_number (sub a r) a.

(** A mapping of the plane sends the same point to the same point. *)
Definition respects_same (f : num -> num -> num * num) : Prop :=
  forall a b a' b' : num,
    same_number a a' -> same_number b b' ->
    same_number (fst (f a b)) (fst (f a' b')) /\
    same_number (snd (f a b)) (snd (f a' b')).

(** The radius is a number that is [=== 0]. *)
Definition is_zero_radius (r : value) : bool :=
  match r with
  | Num n => strict_eq n (lit 0)
  | Undefined => false
  end.

(** The style's radius counts as given: a list, or a number that is
    neither [=== 0] nor NaN. *)
Definition radius_truthy (rad : NumberOrArray) : Prop :=
  match rad with
  | Arr _ => True
  | Scalar (Num n) => strict_eq n (lit 0) = false /\ strict_eq n n = true
  | Scalar Undefined => False
  end.

(** The style's radius counts as absent: [undefined], 0 or NaN. *)
Definition radius_falsy (rad : NumberOrArray) : Prop :=
  match rad with
  | Arr _ => False
  | Scalar (Num n) => strict_eq n (lit 0) = true \/ strict_eq n n = false
  | Scalar Undefined => True
  end.

End Conditions.

(* ================================================================== *)
(** * Properties *)

Section Properties.

Context {JN : JsNumber}.

(** ** parseRadius *)

(** C5.  The radius normalizer returns exactly four values on every input;
    a scalar [v] gives [(v,v,v,v)], [[a]] gives [(a,a,a,a)], [[a,b]] gives
    [(a,b,a,b)], [[a,b,c]] gives [(a,b,c,b)] and [[a,b,c,d]] gives
    [(a,b,c,d)]. *)
Theorem parseRadius_shapes :
  (forall r : NumberOrArray, List.length (parseRadius r) = 4) /\
  (forall v : value, parseRadius (Scalar v) = [v; v; v; v]) /\
  (forall a : num, parseRadius (Arr [a]) = [Num a; Num a; Num a; Num a]) /\
  (forall a b : num, parseRadius (Arr [a; b]) = [Num a; Num b; Num a; Num b]) /\
  (forall a b c : num,
      parseRadius (Arr [a; b; c]) = [Num a; Num b; Num c; Num b]) /\
  (forall a b c d : num,
      parseRadius (Arr [a; b; c; d]) = [Num a; Num b; Num c; Num d]).
Proof.
  repeat split; try reflexivity.
  intros [v | l]; simpl.
  - reflexivity.
  - destruct (List.length l =? 1); [reflexivity|].
    destruct (List.length l =? 2); [reflexivity|].
    destruct (List.length l =? 3); reflexivity.
Qed.

(** ** getRectPoints *)

Lemma getRectPoints_unfold (sp : ShapePoint) (isPyramid : option bool) :
  getRectPoints sp isPyramid =
  let '(yMin, yMax) := spec_yExtent sp in
  let '(xMin, xMax) := spec_xExtent sp in
  mkPoint xMin yMin :: mkPoint xMin yMax ::
  (if default false isPyramid
   then [mkPoint xMax (vdiv (vadd yMax yMin) n2)]
   else [mkPoint xMax yMax; mkPoint xMax yMin]).
Proof.
  unfold getRectPoints, spec_yExtent, spec_xExtent.
  destruct (sp_y sp), (sp_x sp), (default false isPyramid); reflexivity.
Qed.

Lemma vadd_comm :
  (forall a b : num, add a b = add b a) ->
  forall u v : value, vadd u v = vadd v u.
Proof. intros Hc u v. unfold vadd. rewrite Hc. reflexivity. Qed.

(** C4.  For every ShapePoint the point deriver returns, in this order,
    [(xMin,yMin)], [(xMin,yMax)] and then, when [isPyramid] is true, the one
    apex [(xMax,(yMax+yMin)/2)], and when it is false or absent,
    [(xMax,yMax)] and [(xMax,yMin)]; [(yMin,yMax)] are the two elements of
    [y] when [y] is a range and [(y0,y)] otherwise, and [(xMin,xMax)] the
    two elements of [x] when [x] is a range and [(x - size/2, x + size/2)]
    otherwise.  The output has 3 points when [isPyramid] is true and 4
    otherwise, and points 0 and 1 have the x [xMin].  The source adds
    [yMax + yMin]; where addition commutes, as it does on doubles, the apex
    is the specification's [(xMax,(yMin+yMax)/2)]. *)
Theorem getRectPoints_spec (sp : ShapePoint) :
  let xMin := fst (spec_xExtent sp) in
  let xMax := snd (spec_xExtent sp) in
  let yMin := fst (spec_yExtent sp) in
  let yMax := snd (spec_yExtent sp) in
  getRectPoints sp (Some true) =
  [mkPoint xMin yMin; mkPoint xMin yMax;
   mkPoint xMax (vdiv (vadd yMax yMin) n2)] /\
  getRectPoints sp (Some false) =
  [mkPoint xMin yMin; mkPoint xMin yMax;
   mkPoint xMax yMax; mkPoint xMax yMin] /\
  getRectPoints sp None = getRectPoints sp (Some false) /\
  ((forall a b : num, add a b = add b a) ->
   getRectPoints sp (Some true) = spec_rectPoints sp true) /\
  getRectPoints sp (Some false) = spec_rectPoints sp false /\
  List.length (getRectPoints sp (Some true)) = 3 /\
  List.length (getRectPoints sp (Some false)) = 4 /\
  List.length (getRectPoints sp None) = 4 /\
  (forall isPyramid : option bool,
      exists p0 p1 rest,
        getRectPoints sp isPyramid = p0 :: p1 :: rest /\
        px p0 = xMin /\ px p1 = xMin) /\
  (forall xv yv : value,
      sp_x sp = Scalar xv -> sp_y sp = Scalar yv ->
      spec_xExtent sp = (vsub xv (vdiv (sp_size sp) n2),
                         vadd xv (vdiv (sp_size sp) n2)) /\
      spec_yExtent sp = (sp_y0 sp, yv)) /\
  (forall (xv : value) (c d : num),
      sp_x sp = Scalar xv -> sp_y sp = Arr [c; d] ->
      spec_xExtent sp = (vsub xv (vdiv (sp_size sp) n2),
                         vadd xv (vdiv (sp_size sp) n2)) /\
      spec_yExtent sp = (Num c, Num d)) /\
  (forall (a b : num) (yv : value),
      sp_x sp = Arr [a; b] -> sp_y sp = Scalar yv ->
      spec_xExtent sp = (Num a, Num b) /\
      spec_yExtent sp = (sp_y0 sp, yv)) /\
  (forall a b c d : num,
      sp_x sp = Arr [a; b] -> sp_y sp = Arr [c; d] ->
      spec_xExtent sp = (Num a, Num b) /\
      spec_yExtent sp = (Num c, Num d)).
Proof.
  intros xMin xMax yMin yMax.
  assert (Hcases : forall P Q R S : Prop, P -> Q -> R -> S -> P /\ Q /\ R /\ S)
    by tauto.
  assert (Ht : getRectPoints sp (Some true) =
               [mkPoint xMin yMin; mkPoint xMin yMax;
                mkPoint xMax (vdiv (vadd yMax yMin) n2)]).
  { subst xMin xMax yMin yMax. unfold getRectPoints, spec_xExtent, spec_yExtent.
    destruct (sp_y sp), (sp_x sp); reflexivity. }
  assert (Hf : getRectPoints sp (Some false) =
               [mkPoint xMin yMin; mkPoint xMin yMax;
                mkPoint xMax yMax; mkPoint xMax yMin]).
  { subst xMin xMax yMin yMax. unfold getRectPoints, spec_xExtent, spec_yExtent.
    destruct (sp_y sp), (sp_x sp); reflexivity. }
  assert (Hn : getRectPoints sp None = getRectPoints sp (Some false)).
  { unfold getRectPoints. destruct (sp_y sp), (sp_x sp); reflexivity. }
  assert (Hs : forall b : bool,
             spec_rectPoints sp b =
             mkPoint xMin yMin :: mkPoint xMin yMax ::
             (if b then [mkPoint xMax (vdiv (vadd yMin yMax) n2)]
              else [mkPoint xMax yMax; mkPoint xMax yMin])).
  { intro b. subst xMin xMax yMin yMax. unfold spec_rectPoints.
    destruct (spec_yExtent sp), (spec_xExtent sp). reflexivity. }
  split; [exact Ht|]. split; [exact Hf|]. split; [exact Hn|].
  split.
  { intro Hc. rewrite Ht, Hs, (vadd_comm Hc yMax yMin). reflexivity. }
  split; [rewrite Hf, Hs; reflexivity|].
  split; [rewrite Ht; reflexivity|].
  split; [rewrite Hf; reflexivity|].
  split; [rewrite Hn, Hf; reflexivity|].
  split.
  { intros [[|]|]; [rewrite Ht | rewrite Hf | rewrite Hn, Hf];
      eexists _, _, _; repeat split. }
  unfold spec_xExtent, spec_yExtent.
  apply Hcases; intros; repeat match goal with
    | H : sp_x sp = _ |- _ => rewrite H; clear H
    | H : sp_y sp = _ |- _ => rewrite H; clear H
    end; split; reflexivity.
Qed.

(** ** getRectPath *)

Lemma skipn_nth_error {X : Type} (l : list X) (i : nat) (a : X) :
  nth_error l i = Some a -> skipn i l = a :: skipn (S i) l.
Proof.
  revert i. induction l as [|b l IH]; intros [|i] H; simpl in H.
  - discriminate H.
  - discriminate H.
  - injection H as ->. reflexivity.
  - rewrite skipn_cons. rewrite (IH i H). reflexivity.
Qed.

(** The loop pushes one [Line] for each of the [n] points from index [i]. *)
Lemma pushLines_lines (n : nat) :
  forall (points : list Point) (i : nat) (path : Path),
    i + n <= List.length points ->
    pushLines points i n path =
    Ok (path ++ map lineTo (firstn n (skipn i points))).
Proof.
  induction n as [|n IH]; intros points i path Hlen; simpl.
  - rewrite app_nil_r. reflexivity.
  - unfold item. destruct (nth_error points i) as [p|] eqn:E.
    + simpl. rewrite IH by lia.
      rewrite (skipn_nth_error _ _ E). simpl.
      unfold push. rewrite <- app_assoc. reflexivity.
    + apply nth_error_None in E. lia.
Qed.

Lemma getRectPath_cons (p0 : Point) (rest : list Point) (isClosed : option bool) :
  getRectPath (p0 :: rest) isClosed =
  Ok (moveTo p0 :: map lineTo rest ++
      (if default true isClosed then [lineTo p0; Close] else [])).
Proof.
  unfold getRectPath. cbn [item nth_error bind].
  rewrite pushLines_lines by (simpl; lia).
  cbn [List.length skipn bind Nat.sub].
  replace (List.length rest - 0) with (List.length rest) by lia.
  rewrite firstn_all.
  destruct (default true isClosed); unfold push; simpl.
  - rewrite <- app_assoc. reflexivity.
  - rewrite app_nil_r. reflexivity.
Qed.

(** C7.  On a non-empty list of [n] points the straight emitter returns a
    [Move] to the first point followed by a [Line] to each later point in
    input order.  With the closed flag true, and with the flag absent, which
    selects its default, a [Line] back to the first point and a [Close]
    follow and the path has [n + 2] commands; with the flag false nothing
    follows and it has [n]. *)
Theorem getRectPath_spec (points : list Point) :
  points <> [] ->
  exists (p0 : Point) (rest : list Point) (opened closed : Path),
    points = p0 :: rest /\
    getRectPath points (Some false) = Ok opened /\
    getRectPath points (Some true) = Ok closed /\
    getRectPath points None = Ok closed /\
    opened = moveTo p0 :: map lineTo rest /\
    closed = moveTo p0 :: map lineTo rest ++ [lineTo p0; Close] /\
    List.length opened = List.length points /\
    List.length closed = List.length points + 2.
Proof.
  destruct points as [|p0 rest]; [congruence|]. intros _.
  exists p0, rest. eexists. eexists. split; [reflexivity|].
  split; [rewrite getRectPath_cons; simpl; rewrite app_nil_r; reflexivity|].
  split; [rewrite getRectPath_cons; reflexivity|].
  split; [rewrite getRectPath_cons; reflexivity|].
  split; [reflexivity|]. split; [reflexivity|].
  simpl. rewrite length_app, !length_map. simpl. lia.
Qed.

(** ** getFunnelPath *)

(** C6.  With a next-mark list the funnel emitter returns exactly the five
    commands [Move(points[0])], [Line(points[1])], [Line(nextPoints[1])],
    [Line(nextPoints[0])], [Close]; without one and with [isPyramid] it
    traces [points[0]], [points[1]], [points[2]], [points[2]] and closes;
    without one and without [isPyramid] it traces [points[0]] to [points[3]]
    and closes. *)
Theorem getFunnelPath_spec :
  (forall (p0 p1 q0 q1 : Point) (ps qs : list Point) (isPyramid : bool),
      getFunnelPath (p0 :: p1 :: ps) (Some (q0 :: q1 :: qs)) isPyramid =
      Ok [moveTo p0; lineTo p1; lineTo q1; lineTo q0; CloseZ]) /\
  (forall (p0 p1 p2 : Point) (ps : list Point),
      getFunnelPath (p0 :: p1 :: p2 :: ps) None true =
      Ok [moveTo p0; lineTo p1; lineTo p2; lineTo p2; CloseZ]) /\
  (forall (p0 p1 p2 p3 : Point) (ps : list Point),
      getFunnelPath (p0 :: p1 :: p2 :: p3 :: ps) None false =
      Ok [moveTo p0; lineTo p1; lineTo p2; lineTo p3; CloseZ]) /\
  is_close (@CloseZ JN) = true.
Proof. repeat split. Qed.

(** C10.  With a next-mark list, and at least two points in each list, the
    funnel emitter returns a path that depends only on [points[0]],
    [points[1]], [nextPoints[0]] and [nextPoints[1]]: two calls that agree
    on these four points return the same path, whatever the other points
    and the two [isPyramid] flags are. *)
Theorem getFunnelPath_next_only
        (points points' nextPoints nextPoints' : list Point)
        (isPyramid isPyramid' : bool) :
  2 <= List.length points ->
  2 <= List.length nextPoints ->
  nth_error points 0 = nth_error points' 0 ->
  nth_error points 1 = nth_error points' 1 ->
  nth_error nextPoints 0 = nth_error nextPoints' 0 ->
  nth_error nextPoints 1 = nth_error nextPoints' 1 ->
  exists path : Path,
    getFunnelPath points (Some nextPoints) isPyramid = Ok path /\
    getFunnelPath points' (Some nextPoints') isPyramid' = Ok path /\
    getFunnelPath points (Some nextPoints) (negb isPyramid) = Ok path.
Proof.
  intros Hp Hq E0 E1 F0 F1.
  destruct points as [|p0 [|p1 ps]]; simpl in Hp; try lia.
  destruct nextPoints as [|q0 [|q1 qs]]; simpl in Hq; try lia.
  exists [moveTo p0; lineTo p1; lineTo q1; lineTo q0; CloseZ].
  split; [reflexivity|]. split; [|reflexivity].
  unfold getFunnelPath, item.
  rewrite <- E0, <- E1, <- F0, <- F1. reflexivity.
Qed.

(** ** getIntervalRectPath: round caps *)

(** C1.  With [lineCap] equal to ['round'] the rounded emitter computes
    [r = (points[2].x - points[1].x) / 2] and [ry = r*height/width] when the
    coordinate system is transposed, [r*width/height] otherwise.  On a
    rectangular coordinate system it returns [Move(p0.x, p0.y+ry)],
    [Line(p1.x, p1.y-ry)], [Arc(r,r,0,0,1,p2.x,p2.y-ry)],
    [Line(p3.x, p3.y+ry)], [Arc(r,r,0,0,1,p0.x,p0.y+ry)], [Close]; on any
    other type the same six commands without the [ry] offsets.  In both
    cases the arcs are the two commands with radii [r], [r] and sweep flag
    1, and the path ends with [Close]. *)
Theorem getIntervalRectPath_round
        (p0 p1 p2 p3 : Point) (coor : Coordinate) (style : option Style) :
  let r := vdiv (vsub (px p2) (px p1)) n2 in
  let ry :=
    if isTransposed coor
    then vdiv (vmul r (Num (getHeight coor))) (Num (getWidth coor))
    else vdiv (vmul r (Num (getWidth coor))) (Num (getHeight coor)) in
  exists path : Path,
    getIntervalRectPath [p0; p1; p2; p3] (Some "round"%string) coor style
    = Ok path /\
    path =
    (if String.eqb (type coor) "rect"
     then [M (px p0) (vadd (py p0) ry);
           L (px p1) (vsub (py p1) ry);
           A r r n0 n0 n1 (px p2) (vsub (py p2) ry);
           L (px p3) (vadd (py p3) ry);
           A r r n0 n0 n1 (px p0) (vadd (py p0) ry);
           Close]
     else [M (px p0) (py p0);
           L (px p1) (py p1);
           A r r n0 n0 n1 (px p2) (py p2);
           L (px p3) (py p3);
           A r r n0 n0 n1 (px p0) (py p0);
           Close]) /\
    (exists a b c d : value,
        filter is_arc path = [A r r n0 n0 n1 a b; A r r n0 n0 n1 c d]) /\
    last path [] = Close.
Proof.
  intros r ry.
  unfold getIntervalRectPath, roundCapPath.
  cbn [item nth_error bind is_round]. change ("round" =? "round")%string with true.
  cbv iota. fold r. fold ry.
  destruct (String.eqb (type coor) "rect");
    (eexists; split; [reflexivity|]);
    (split; [reflexivity|]); (split; [|reflexivity]);
    eexists _, _, _, _; reflexivity.
Qed.

(** ** getIntervalRectPath: per-corner radii *)

Lemma invertCommand_3 (coor : Coordinate) (t : string) (a b : value) :
  invertCommand coor [Tag t; Arg a; Arg b] =
  spec_invertTrailing coor [Tag t; Arg a; Arg b].
Proof.
  unfold invertCommand, spec_invertTrailing, invertP. simpl.
  destruct (invertPoint coor (toNumber a) (toNumber b)); reflexivity.
Qed.

Lemma invertCommand_A (coor : Coordinate) (rx ry rot large sweep a b : value) :
  invertCommand coor (A rx ry rot large sweep a b) =
  spec_invertTrailing coor (A rx ry rot large sweep a b).
Proof.
  unfold invertCommand, spec_invertTrailing, invertP. simpl.
  destruct (invertPoint coor (toNumber a) (toNumber b)); reflexivity.
Qed.

Lemma invertCommand_coordinate (coor : Coordinate) (path : Path) :
  Forall coordinate_command path ->
  map (invertCommand coor) path = map (spec_invertTrailing coor) path.
Proof.
  induction 1 as [|c path Hc _ IH]; simpl.
  - reflexivity.
  - rewrite IH. destruct Hc.
    + rewrite invertCommand_3. reflexivity.
    + rewrite invertCommand_A. reflexivity.
Qed.

Lemma spec_cornerArc_coordinate (r a b : value) :
  Forall coordinate_command (spec_cornerArc r a b).
Proof.
  unfold spec_cornerArc. destruct (strict_neq r n0); repeat constructor.
Qed.

Lemma spec_roundedVisual_coordinate (c0 c1 c2 c3 : Point) (r1 r2 r3 r4 : value) :
  Forall coordinate_command (spec_roundedVisual c0 c1 c2 c3 r1 r2 r3 r4).
Proof.
  unfold spec_roundedVisual.
  repeat (apply Forall_app; split);
    try apply spec_cornerArc_coordinate; repeat constructor.
Qed.

(** The pushes of the source build the rounded rectangle of the
    specification. *)
Lemma radiusVisualPath_eq (p0 p1 p2 p3 : Point) (coor : Coordinate)
      (rad : NumberOrArray) :
  radiusVisualPath [p0; p1; p2; p3] coor rad =
  Ok (spec_roundedVisual
        (convertP coor p0) (convertP coor p1)
        (convertP coor p2) (convertP coor p3)
        (vidx (parseRadius rad) 0) (vidx (parseRadius rad) 1)
        (vidx (parseRadius rad) 2) (vidx (parseRadius rad) 3)).
Proof.
  unfold radiusVisualPath, spec_roundedVisual, spec_cornerArc.
  cbn [map item nth_error bind].
  destruct (strict_neq (vidx (parseRadius rad) 0) n0),
           (strict_neq (vidx (parseRadius rad) 1) n0),
           (strict_neq (vidx (parseRadius rad) 2) n0),
           (strict_neq (vidx (parseRadius rad) 3) n0); reflexivity.
Qed.

Lemma radiusPath_eq (p0 p1 p2 p3 : Point) (coor : Coordinate)
      (rad : NumberOrArray) :
  radiusPath [p0; p1; p2; p3] coor rad =
  Ok (map (spec_invertTrailing coor)
        (spec_roundedVisual
           (convertP coor p0) (convertP coor p1)
           (convertP coor p2) (convertP coor p3)
           (vidx (parseRadius rad) 0) (vidx (parseRadius rad) 1)
           (vidx (parseRadius rad) 2) (vidx (parseRadius rad) 3))
      ++ [Close]).
Proof.
  unfold radiusPath. rewrite radiusVisualPath_eq. cbn [bind].
  rewrite invertCommand_coordinate by apply spec_roundedVisual_coordinate.
  reflexivity.
Qed.

(** The branch the source takes on four points. *)
Lemma getIntervalRectPath_mode (p0 p1 p2 p3 : Point) (lineCap : option string)
      (coor : Coordinate) (style : option Style) :
  getIntervalRectPath [p0; p1; p2; p3] lineCap coor style =
  path_of_mode (mode_of lineCap style) p0 p1 p2 p3 coor style.
Proof.
  unfold getIntervalRectPath, path_of_mode, mode_of.
  cbn [item nth_error bind].
  destruct (is_round lineCap); [reflexivity|].
  destruct (truthy (style_radius style)); [reflexivity|].
  rewrite !getRectPath_cons. reflexivity.
Qed.

Lemma convertP_num (coor : Coordinate) (p : Point) :
  num_point (convertP coor p).
Proof.
  unfold convertP.
  destruct (convert coor (toNumber (px p)) (toNumber (py p))).
  split; exact I.
Qed.

(** ** The conditions of the statements and the tests of the source *)

Lemma not_round_is_round (lineCap : option string) :
  lineCap <> Some "round"%string -> is_round lineCap = false.
Proof.
  destruct lineCap as [s|]; [|reflexivity].
  intro H. simpl. apply String.eqb_neq. congruence.
Qed.

Lemma radius_truthy_truthy (rad : NumberOrArray) :
  radius_truthy rad -> truthy rad = true.
Proof.
  destruct rad as [[|n] | l]; simpl; intro H.
  - contradiction H.
  - unfold truthy_num. destruct H as [-> ->]. reflexivity.
  - reflexivity.
Qed.

Lemma radius_falsy_truthy (rad : NumberOrArray) :
  radius_falsy rad -> truthy rad = false.
Proof.
  destruct rad as [[|n] | l]; simpl; intro H.
  - reflexivity.
  - unfold truthy_num. destruct H as [-> | ->].
    + reflexivity.
    + apply andb_false_r.
  - contradiction H.
Qed.

Lemma radius_truthy_or_falsy (rad : NumberOrArray) :
  radius_truthy rad \/ radius_falsy rad.
Proof.
  destruct rad as [[|n] | l]; simpl.
  - right. exact I.
  - destruct (strict_eq n (lit 0)); [right; left; reflexivity|].
    destruct (strict_eq n n); [left; split; reflexivity | right; right; reflexivity].
  - left. exact I.
Qed.

Lemma radius_truthy_not_falsy (rad : NumberOrArray) :
  radius_truthy rad -> radius_falsy rad -> False.
Proof.
  intros Ht Hf. apply radius_truthy_truthy in Ht.
  apply radius_falsy_truthy in Hf. congruence.
Qed.

Lemma strict_neq_zero_radius (r : value) :
  strict_neq r n0 = negb (is_zero_radius r).
Proof. destruct r; reflexivity. Qed.

(** The branch taken without round caps on a style that holds [rad]. *)
Lemma getIntervalRectPath_radius_branch (p0 p1 p2 p3 : Point)
      (lineCap : option string) (coor : Coordinate) (rad : NumberOrArray) :
  lineCap <> Some "round"%string ->
  getIntervalRectPath [p0; p1; p2; p3] lineCap coor (Some (mkStyle rad)) =
  if truthy rad
  then radiusPath [p0; p1; p2; p3] coor rad
  else getRectPath [p0; p1; p2; p3] (Some true).
Proof.
  intro H. rewrite getIntervalRectPath_mode. unfold mode_of.
  rewrite (not_round_is_round H). cbn [style_radius radius].
  destruct (truthy rad); reflexivity.
Qed.

(** ** getIntervalRectPath: the three modes *)

(** C3, as amended.  On every four key points exactly one of three modes
    applies, in this order: if [lineCap] equals ['round'] the round-cap mode,
    whatever the style holds; otherwise, if the style's radius is truthy
    (any list, or a number other than 0 and NaN), the per-corner radius
    mode; otherwise (no style, no radius, or a radius of 0 or NaN) the
    result is the straight emitter's on the four points with closed=true. *)
Theorem getIntervalRectPath_modes
        (p0 p1 p2 p3 : Point) (coor : Coordinate) :
  let points := [p0; p1; p2; p3] in
  let r := vdiv (vsub (px p2) (px p1)) n2 in
  let ry :=
    if isTransposed coor
    then vdiv (vmul r (Num (getHeight coor))) (Num (getWidth coor))
    else vdiv (vmul r (Num (getWidth coor))) (Num (getHeight coor)) in
  (forall style : option Style,
      getIntervalRectPath points (Some "round"%string) coor style =
      roundCapPath points (String.eqb (type coor) "rect") r ry) /\
  (forall (lineCap : option string) (rad : NumberOrArray),
      lineCap <> Some "round"%string ->
      radius_truthy rad ->
      getIntervalRectPath points lineCap coor (Some (mkStyle rad)) =
      radiusPath points coor rad) /\
  (forall (lineCap : option string) (rad : NumberOrArray),
      lineCap <> Some "round"%string ->
      radius_falsy rad ->
      getIntervalRectPath points lineCap coor (Some (mkStyle rad)) =
      getRectPath points (Some true)) /\
  (forall lineCap : option string,
      lineCap <> Some "round"%string ->
      getIntervalRectPath points lineCap coor None =
      getRectPath points (Some true)) /\
  (forall rad : NumberOrArray, radius_truthy rad \/ radius_falsy rad) /\
  (forall rad : NumberOrArray, radius_truthy rad -> radius_falsy rad -> False) /\
  (forall l : list num, radius_truthy (Arr l)) /\
  (forall n : num, strict_eq n (lit 0) = true -> radius_falsy (Scalar (Num n))).
Proof.
  intros points r ry.
  split; [intro style; reflexivity|].
  split.
  { intros lineCap rad Hl Hr. subst points.
    rewrite (getIntervalRectPath_radius_branch _ _ _ _ _ _ Hl).
    rewrite (radius_truthy_truthy _ Hr). reflexivity. }
  split.
  { intros lineCap rad Hl Hr. subst points.
    rewrite (getIntervalRectPath_radius_branch _ _ _ _ _ _ Hl).
    rewrite (radius_falsy_truthy _ Hr). reflexivity. }
  split.
  { intros lineCap Hl. subst points.
    rewrite getIntervalRectPath_mode. unfold mode_of.
    rewrite (not_round_is_round Hl). reflexivity. }
  split; [exact radius_truthy_or_falsy|].
  split; [exact radius_truthy_not_falsy|].
  split; [intro l; exact I|].
  intros n Hn. left. exact Hn.
Qed.

(** ** Points that are the same point *)

Lemma same_number_refl (a : num) : same_number a a.
Proof. left. reflexivity. Qed.


Lemma same_value_refl (a : value) : same_value a a.
Proof. destruct a; [exact I | apply same_number_refl]. Qed.



Lemma same_value_toNumber (a b : value) :
  same_value a b -> same_number (toNumber a) (toNumber b).
Proof.
  destruct a, b; simpl; try contradiction.
  - intros _. apply same_number_refl.
  - tauto.
Qed.

(** Shifting a number by a radius that is [=== 0] gives the same number. *)
Lemma zero_shift_value :
  zero_shift_law ->
  forall r v : value,
    is_zero_radius r = true -> is_num v ->
    same_value (vadd v r) v /\ same_value (vsub v r) v.
Proof.
  intros Hz [|n] [|a] Hr Hv; simpl in Hr; try discriminate Hr;
    try contradiction Hv.
  exact (Hz n a Hr).
Qed.

Lemma invertP_respects (coor : Coordinate) (p q : Point) :
  respects_same (invertPoint coor) ->
  same_point p q -> same_point (invertP coor p) (invertP coor q).
Proof.
  intros Hr [Hx Hy]. apply same_value_toNumber in Hx, Hy.
  destruct (Hr _ _ _ _ Hx Hy) as [H1 H2].
  unfold invertP.
  destruct (invertPoint coor (toNumber (px p)) (toNumber (py p))).
  destruct (invertPoint coor (toNumber (px q)) (toNumber (py q))).
  split; assumption.
Qed.

Lemma point_eta (p : Point) : mkPoint (px p) (py p) = p.
Proof. destruct p. reflexivity. Qed.



(** ** getIntervalRectPath: where the per-corner path ends *)


(** ** getIntervalRectPath: radii that are all zero *)

Lemma invertP_convertP (coor : Coordinate) (a b : num) :
  left_inverse coor ->
  invertP coor (convertP coor (mkPoint (Num a) (Num b))) =
  mkPoint (Num a) (Num b).
Proof.
  intro H. specialize (H a b). unfold invertP, convertP. simpl.
  destruct (convert coor a b) as [u v]. simpl in *. rewrite H. reflexivity.
Qed.

(** With four radii that are zero the rounded rectangle is five commands,
    a [Move] and four [Line]s, through the same points as the four
    converted corners and the first again. *)
Lemma spec_roundedVisual_zero (c0 c1 c2 c3 : Point) (r1 r2 r3 r4 : value) :
  is_zero_radius r1 = true -> is_zero_radius r2 = true ->
  is_zero_radius r3 = true -> is_zero_radius r4 = true ->
  spec_roundedVisual c0 c1 c2 c3 r1 r2 r3 r4 =
  [M (px c0) (vsub (py c0) r1); L (px c1) (vadd (py c1) r2);
   L (vsub (px c2) r3) (py c2); L (px c3) (vsub (py c3) r4);
   L (vadd (px c0) r1) (py c0)] /\
  (zero_shift_law ->
   num_point c0 -> num_point c1 -> num_point c2 -> num_point c3 ->
   Forall2 same_point
     (vertices (spec_roundedVisual c0 c1 c2 c3 r1 r2 r3 r4))
     [c0; c1; c2; c3; c0]).
Proof.
  intros E1 E2 E3 E4.
  assert (Hv : spec_roundedVisual c0 c1 c2 c3 r1 r2 r3 r4 =
               [M (px c0) (vsub (py c0) r1); L (px c1) (vadd (py c1) r2);
                L (vsub (px c2) r3) (py c2); L (px c3) (vsub (py c3) r4);
                L (vadd (px c0) r1) (py c0)]).
  { unfold spec_roundedVisual, spec_cornerArc.
    rewrite !strict_neq_zero_radius, E1, E2, E3, E4. reflexivity. }
  split; [exact Hv|].
  intros Hz [Hx0 Hy0] [Hx1 Hy1] [Hx2 Hy2] [Hx3 Hy3]. rewrite Hv.
  change (vertices
            [M (px c0) (vsub (py c0) r1); L (px c1) (vadd (py c1) r2);
             L (vsub (px c2) r3) (py c2); L (px c3) (vsub (py c3) r4);
             L (vadd (px c0) r1) (py c0)])
    with [mkPoint (px c0) (vsub (py c0) r1); mkPoint (px c1) (vadd (py c1) r2);
          mkPoint (vsub (px c2) r3) (py c2); mkPoint (px c3) (vsub (py c3) r4);
          mkPoint (vadd (px c0) r1) (py c0)].
  repeat constructor; simpl;
    try apply same_value_refl;
    try (apply (zero_shift_value Hz); assumption).
Qed.

(** ** Totality on well-formed input *)

Lemma parseRadius_defined (r : NumberOrArray) :
  wf_radius r ->
  exists a b c d : num, parseRadius r = [Num a; Num b; Num c; Num d].
Proof.
  destruct r as [[|n] | l]; simpl; intro H.
  - contradiction H.
  - exists n, n, n, n. reflexivity.
  - destruct l as [|a [|b [|c [|d [|e l]]]]]; simpl in H; try lia.
    + exists a, a, a, a. reflexivity.
    + exists a, b, a, b. reflexivity.
    + exists a, b, c, b. reflexivity.
    + exists a, b, c, d. reflexivity.
Qed.

Lemma getRectPoints_defined (sp : ShapePoint) (isPyramid : option bool) :
  wf_shapePoint sp -> Forall num_point (getRectPoints sp isPyramid).
Proof.
  intros [Hy Hx]. rewrite getRectPoints_unfold.
  unfold spec_yExtent, spec_xExtent.
  destruct (sp_y sp) as [yv | ly], (sp_x sp) as [xv | lx].
  - destruct Hy as [Hy Hy0]. destruct (default false isPyramid);
      repeat constructor; simpl; assumption.
  - destruct Hy as [Hy Hy0].
    destruct lx as [|a [|b [|c lx]]]; simpl in Hx; try lia.
    destruct (default false isPyramid); repeat constructor; simpl; assumption.
  - destruct ly as [|a [|b [|c ly]]]; simpl in Hy; try lia.
    destruct (default false isPyramid); repeat constructor.
  - destruct ly as [|a [|b [|c ly]]]; simpl in Hy; try lia.
    destruct lx as [|a' [|b' [|c' lx]]]; simpl in Hx; try lia.
    destruct (default false isPyramid); repeat constructor.
Qed.

(** C9.  On well-formed input every operation returns normally.  The
    radius normalizer returns four numbers on a number or a list of one to
    four numbers, and the point deriver returns points with numeric
    coordinates on a well-formed ShapePoint: no [undefined] read past the
    end of a list, or from a missing field, reaches the output.  The
    straight emitter on a non-empty list, and the rounded and funnel
    emitters on lists of four points, return a path and raise no
    [TypeError], which is what a read past the end of a list of points
    raises; the radii the per-corner mode uses are four numbers. *)
Theorem operations_total :
  (forall r : NumberOrArray,
      wf_radius r ->
      exists a b c d : num, parseRadius r = [Num a; Num b; Num c; Num d]) /\
  (forall (sp : ShapePoint) (isPyramid : option bool),
      wf_shapePoint sp -> Forall num_point (getRectPoints sp isPyramid)) /\
  (forall (points : list Point) (isClosed : option bool),
      points <> [] ->
      exists path : Path, getRectPath points isClosed = Ok path) /\
  (forall (points : list Point) (lineCap : option string)
          (coor : Coordinate) (style : option Style),
      List.length points = 4 ->
      wf_radius (style_radius style) \/ style_radius style = Scalar Undefined ->
      (exists path : Path,
          getIntervalRectPath points lineCap coor style = Ok path) /\
      (mode_of lineCap style = PerCorner ->
       exists a b c d : num,
         parseRadius (style_radius style) = [Num a; Num b; Num c; Num d])) /\
  (forall (points : list Point) (nextPoints : option (list Point))
          (isPyramid : bool),
      List.length points = 4 ->
      match nextPoints with
      | Some q => List.length q = 4
      | None => True
      end ->
      exists path : Path, getFunnelPath points nextPoints isPyramid = Ok path).
Proof.
  split; [exact parseRadius_defined|].
  split; [exact getRectPoints_defined|].
  split; [|split].
  - intros [|p0 rest] isClosed H; [congruence|].
    eexists. apply getRectPath_cons.
  - intros points lineCap coor style Hlen Hwf.
    destruct points as [|p0 [|p1 [|p2 [|p3 [|p4 ps]]]]]; simpl in Hlen; try lia.
    split.
    + rewrite getIntervalRectPath_mode.
      destruct (mode_of lineCap style); unfold path_of_mode.
      * unfold roundCapPath. cbn [item nth_error bind].
        destruct (String.eqb (type coor) "rect"); eexists; reflexivity.
      * rewrite radiusPath_eq. eexists. reflexivity.
      * rewrite getRectPath_cons. eexists. reflexivity.
    + intro Hm. destruct Hwf as [Hw | Hu].
      * apply parseRadius_defined. exact Hw.
      * unfold mode_of in Hm. rewrite Hu in Hm. simpl in Hm.
        destruct (is_round lineCap); discriminate Hm.
  - intros points nextPoints isPyramid Hlen Hnext.
    destruct points as [|p0 [|p1 [|p2 [|p3 [|p4 ps]]]]]; simpl in Hlen; try lia.
    destruct nextPoints as [q|].
    + destruct q as [|q0 [|q1 [|q2 [|q3 [|q4 qs]]]]]; simpl in Hnext; try lia.
      eexists. reflexivity.
    + destruct isPyramid; eexists; reflexivity.
Qed.

End Properties.

(* ================================================================== *)
(** * Further properties of the source *)

Section Coverage.

Context {JN : JsNumber}.

(** ** parseRadius on lists outside one to four elements *)

(** X1.  [parseRadius] takes the first four elements of a list of four or
    more and ignores the rest; on the empty list it returns four
    [undefined]; and the empty list is the only list for which an
    [undefined] appears among the four radii. *)
Theorem parseRadius_edge_lengths :
  (forall (a b c d : num) (rest : list num),
      parseRadius (Arr (a :: b :: c :: d :: rest)) =
      [Num a; Num b; Num c; Num d]) /\
  parseRadius (Arr []) = [Undefined; Undefined; Undefined; Undefined] /\
  (forall l : list num, In Undefined (parseRadius (Arr l)) <-> l = []).
Proof.
  split; [reflexivity|]. split; [reflexivity|].
  intros [|a [|b [|c [|d rest]]]]; simpl; split; intro H;
    try reflexivity; try discriminate H; try (left; reflexivity);
    repeat (destruct H as [H | H]; [discriminate H|]); contradiction H.
Qed.

(** X2.  For a number and for every list of at most three elements, the
    empty one included, the second and fourth radii are equal; for a number
    and every list of at most two elements the first and third are equal
    too. *)
Theorem parseRadius_opposite_corners (r : NumberOrArray) :
  (match r with
   | Scalar _ => True
   | Arr l => List.length l <= 3
   end -> vidx (parseRadius r) 1 = vidx (parseRadius r) 3) /\
  (match r with
   | Scalar _ => True
   | Arr l => List.length l <= 2
   end -> vidx (parseRadius r) 0 = vidx (parseRadius r) 2).
Proof.
  destruct r as [v | l]; [split; reflexivity|].
  destruct l as [|a [|b [|c [|d rest]]]]; simpl; split; intro H;
    try reflexivity; lia.
Qed.

(** ** getRectPath: errors, shape and round trip *)

(** X3.  The straight emitter raises a [TypeError] exactly on the empty
    list of points, whatever the closed flag. *)
Theorem getRectPath_TypeError_iff (points : list Point) (isClosed : option bool) :
  getRectPath points isClosed = TypeError <-> points = [].
Proof.
  destruct points as [|p0 rest].
  - split; reflexivity.
  - rewrite getRectPath_cons. split; intro H; discriminate H.
Qed.

Lemma endpoint_lineTo (p : Point) : endpoint (lineTo p) = Some p.
Proof. destruct p. reflexivity. Qed.

Lemma endpoint_moveTo (p : Point) : endpoint (moveTo p) = Some p.
Proof. destruct p. reflexivity. Qed.

Lemma vertices_app (p q : Path) : vertices (p ++ q) = vertices p ++ vertices q.
Proof. apply flat_map_app. Qed.

Lemma vertices_lines (l : list Point) : vertices (map lineTo l) = l.
Proof.
  induction l as [|p l IH]; [reflexivity|].
  change (vertices (map lineTo (p :: l)))
    with (match endpoint (lineTo p) with
          | Some q => [q]
          | None => []
          end ++ vertices (map lineTo l)).
  rewrite endpoint_lineTo, IH. reflexivity.
Qed.

Lemma filter_arc_lines (l : list Point) : filter is_arc (map lineTo l) = [].
Proof. induction l as [|p l IH]; [reflexivity | exact IH]. Qed.

Lemma filter_move_lines (l : list Point) : filter is_move (map lineTo l) = [].
Proof. induction l as [|p l IH]; [reflexivity | exact IH]. Qed.

(** The points the straight path visits: the input, and the first point
    again when the path is closed. *)
Lemma getRectPath_vertices (p0 : Point) (rest : list Point)
      (isClosed : option bool) (path : Path) :
  getRectPath (p0 :: rest) isClosed = Ok path ->
  vertices path =
  (p0 :: rest) ++ (if default true isClosed then [p0] else []).
Proof.
  rewrite getRectPath_cons. intro H. injection H as <-.
  change (moveTo p0 :: map lineTo rest ++
          (if default true isClosed then [lineTo p0; Close] else []))
    with ([moveTo p0] ++ map lineTo rest ++
          (if default true isClosed then [lineTo p0; Close] else [])).
  rewrite !vertices_app, vertices_lines.
  change (vertices [moveTo p0])
    with (match endpoint (moveTo p0) with
          | Some q => [q]
          | None => []
          end ++ []).
  rewrite endpoint_moveTo.
  destruct (default true isClosed); [|reflexivity].
  change (vertices [lineTo p0; Close])
    with (match endpoint (lineTo p0) with
          | Some q => [q]
          | None => []
          end ++ []).
  rewrite endpoint_lineTo. reflexivity.
Qed.

(** X4.  Round trip: the points an open straight path visits are the
    input points, in order; a closed one visits the first point once
    more. *)
Theorem getRectPath_round_trip (points : list Point) :
  points <> [] ->
  exists opened closed : Path,
    getRectPath points (Some false) = Ok opened /\
    getRectPath points (Some true) = Ok closed /\
    vertices opened = points /\
    vertices closed = points ++ firstn 1 points.
Proof.
  destruct points as [|p0 rest]; [congruence|]. intros _.
  eexists. eexists.
  split; [apply getRectPath_cons|]. split; [apply getRectPath_cons|].
  split.
  - rewrite (@getRectPath_vertices p0 rest (Some false) _
               (getRectPath_cons p0 rest (Some false))).
    simpl. rewrite app_nil_r. reflexivity.
  - rewrite (@getRectPath_vertices p0 rest (Some true) _
               (getRectPath_cons p0 rest (Some true))).
    reflexivity.
Qed.

(** X5.  The straight emitter is injective: two lists of points, one of
    them not empty, that give the same result under the same flag are the
    same list. *)
Theorem getRectPath_injective (points points' : list Point)
        (isClosed : option bool) :
  points <> [] ->
  getRectPath points isClosed = getRectPath points' isClosed ->
  points = points'.
Proof.
  destruct points as [|p0 rest]; [congruence|]. intros _ H.
  destruct points' as [|q0 rest'].
  - rewrite getRectPath_cons in H. discriminate H.
  - pose proof (@getRectPath_vertices p0 rest isClosed _
                  (getRectPath_cons p0 rest isClosed)) as Hp.
    pose proof (@getRectPath_vertices q0 rest' isClosed _
                  (getRectPath_cons q0 rest' isClosed)) as Hq.
    rewrite !getRectPath_cons in H.
    assert (E := f_equal (fun r => match r with
                                   | Ok x => vertices x
                                   | TypeError => []
                                   end) H).
    cbv beta iota in E.
    rewrite Hp, Hq in E.
    destruct (default true isClosed).
    + apply app_inj_tail in E. exact (proj1 E).
    + rewrite !app_nil_r in E. exact E.
Qed.

(** X6.  A closed straight path is the open one on the same points
    followed by a [Line] to the first point and [Close]; it holds no arc
    and exactly one [Move], its first command. *)
Theorem getRectPath_closed_extends_open (points : list Point) :
  points <> [] ->
  exists (p0 : Point) (opened closed : Path),
    hd_error points = Some p0 /\
    getRectPath points (Some false) = Ok opened /\
    getRectPath points (Some true) = Ok closed /\
    closed = opened ++ [lineTo p0; Close] /\
    filter is_arc closed = [] /\
    filter is_move closed = [moveTo p0] /\
    hd_error closed = Some (moveTo p0).
Proof.
  destruct points as [|p0 rest]; [congruence|]. intros _.
  exists p0. eexists. eexists.
  split; [reflexivity|].
  split; [apply getRectPath_cons|]. split; [apply getRectPath_cons|].
  simpl. rewrite app_nil_r.
  split; [reflexivity|].
  rewrite !filter_app, filter_arc_lines, filter_move_lines.
  repeat split.
Qed.

(** ** getIntervalRectPath: errors and what each mode reads *)

Lemma roundCapPath_cons4 (p0 p1 p2 p3 : Point) (rest : list Point)
      (isRect : bool) (r ry : value) :
  roundCapPath (p0 :: p1 :: p2 :: p3 :: rest) isRect r ry =
  roundCapPath [p0; p1; p2; p3] isRect r ry.
Proof. unfold roundCapPath. destruct isRect; reflexivity. Qed.

Lemma radiusPath_cons4 (p0 p1 p2 p3 : Point) (rest : list Point)
      (coor : Coordinate) (rad : NumberOrArray) :
  radiusPath (p0 :: p1 :: p2 :: p3 :: rest) coor rad =
  radiusPath [p0; p1; p2; p3] coor rad.
Proof. reflexivity. Qed.

Lemma roundCapPath_3 (p0 p1 p2 : Point) (isRect : bool) (r ry : value) :
  roundCapPath [p0; p1; p2] isRect r ry = TypeError.
Proof. unfold roundCapPath. destruct isRect; reflexivity. Qed.

Lemma radiusPath_3 (p0 p1 p2 : Point) (coor : Coordinate) (rad : NumberOrArray) :
  radiusPath [p0; p1; p2] coor rad = TypeError.
Proof. reflexivity. Qed.

(** The branch taken on three or more points. *)
Lemma getIntervalRectPath_mode_ge3 (p0 p1 p2 : Point) (rest : list Point)
      (lineCap : option string) (coor : Coordinate) (style : option Style) :
  let points := p0 :: p1 :: p2 :: rest in
  let r := vdiv (vsub (px p2) (px p1)) n2 in
  let ry :=
    if isTransposed coor
    then vdiv (vmul r (Num (getHeight coor))) (Num (getWidth coor))
    else vdiv (vmul r (Num (getWidth coor))) (Num (getHeight coor)) in
  getIntervalRectPath points lineCap coor style =
  match mode_of lineCap style with
  | RoundCap => roundCapPath points (String.eqb (type coor) "rect") r ry
  | PerCorner => radiusPath points coor (style_radius style)
  | Straight => getRectPath points (Some true)
  end.
Proof.
  intros points r ry. unfold getIntervalRectPath, mode_of.
  cbn [item nth_error bind].
  destruct (is_round lineCap); [reflexivity|].
  destruct (truthy (style_radius style)); [reflexivity|].
  subst points. rewrite !getRectPath_cons. reflexivity.
Qed.

Lemma path_of_mode_Ok (m : Mode) (p0 p1 p2 p3 : Point) (coor : Coordinate)
      (style : option Style) :
  exists path : Path, path_of_mode m p0 p1 p2 p3 coor style = Ok path.
Proof.
  destruct m; unfold path_of_mode.
  - unfold roundCapPath. cbn [item nth_error bind].
    destruct (String.eqb (type coor) "rect"); eexists; reflexivity.
  - rewrite radiusPath_eq. eexists. reflexivity.
  - rewrite getRectPath_cons. eexists. reflexivity.
Qed.

(** X7.  The rounded emitter raises a [TypeError] exactly when it is given
    fewer than three points, or three points in round-cap or per-corner
    mode.  On fewer than three points it raises even in its straight
    branch, where the straight emitter alone would return a path. *)
Theorem getIntervalRectPath_TypeError_iff
        (points : list Point) (lineCap : option string)
        (coor : Coordinate) (style : option Style) :
  getIntervalRectPath points lineCap coor style = TypeError <->
  List.length points < 3 \/
  (List.length points = 3 /\ mode_of lineCap style <> Straight).
Proof.
  destruct points as [|p0 [|p1 [|p2 [|p3 rest]]]].
  - simpl. split; [intros _; left; lia | reflexivity].
  - simpl. split; [intros _; left; lia | reflexivity].
  - simpl. split; [intros _; left; lia | reflexivity].
  - rewrite getIntervalRectPath_mode_ge3. cbv zeta.
    destruct (mode_of lineCap style).
    + rewrite roundCapPath_3. split; [intros _; right|reflexivity].
      split; [reflexivity | discriminate].
    + rewrite radiusPath_3. split; [intros _; right|reflexivity].
      split; [reflexivity | discriminate].
    + rewrite getRectPath_cons. split; [discriminate|].
      intros [H | [_ H]]; [simpl in H; lia | congruence].
  - rewrite getIntervalRectPath_mode_ge3. cbv zeta.
    assert (Hok : exists path : Path,
               match mode_of lineCap style with
               | RoundCap =>
                   roundCapPath (p0 :: p1 :: p2 :: p3 :: rest)
                     (String.eqb (type coor) "rect")
                     (vdiv (vsub (px p2) (px p1)) n2)
                     (if isTransposed coor
                      then vdiv (vmul (vdiv (vsub (px p2) (px p1)) n2)
                                      (Num (getHeight coor)))
                                (Num (getWidth coor))
                      else vdiv (vmul (vdiv (vsub (px p2) (px p1)) n2)
                                      (Num (getWidth coor)))
                                (Num (getHeight coor)))
               | PerCorner =>
                   radiusPath (p0 :: p1 :: p2 :: p3 :: rest) coor
                              (style_radius style)
               | Straight =>
                   getRectPath (p0 :: p1 :: p2 :: p3 :: rest) (Some true)
               end = Ok path).
    { destruct (mode_of lineCap style).
      - rewrite roundCapPath_cons4.
        apply (path_of_mode_Ok RoundCap p0 p1 p2 p3 coor style).
      - rewrite radiusPath_cons4.
        apply (path_of_mode_Ok PerCorner p0 p1 p2 p3 coor style).
      - rewrite getRectPath_cons. eexists. reflexivity. }
    destruct Hok as [path ->].
    split; [discriminate|].
    intros [H | [H _]]; simpl in H; lia.
Qed.

(** X8.  In round-cap and per-corner mode the rounded emitter reads the
    first four points only: points after the fourth do not change its
    result. *)
Theorem getIntervalRectPath_first_four
        (p0 p1 p2 p3 : Point) (rest : list Point) (lineCap : option string)
        (coor : Coordinate) (style : option Style) :
  mode_of lineCap style <> Straight ->
  getIntervalRectPath (p0 :: p1 :: p2 :: p3 :: rest) lineCap coor style =
  getIntervalRectPath [p0; p1; p2; p3] lineCap coor style.
Proof.
  intro Hm. rewrite !getIntervalRectPath_mode_ge3. cbv zeta.
  destruct (mode_of lineCap style).
  - apply roundCapPath_cons4.
  - apply radiusPath_cons4.
  - congruence.
Qed.

(** X9.  Round-cap mode reads the coordinate system's width, height, type
    and transposition only: it never consults the style, [convert] or
    [invertPoint].  On a coordinate system that is not rectangular it reads
    the type only. *)
Theorem getIntervalRectPath_round_reads
        (points : list Point) (coor coor' : Coordinate)
        (style style' : option Style) :
  (getWidth coor = getWidth coor' ->
   getHeight coor = getHeight coor' ->
   type coor = type coor' ->
   isTransposed coor = isTransposed coor' ->
   getIntervalRectPath points (Some "round"%string) coor style =
   getIntervalRectPath points (Some "round"%string) coor' style') /\
  (String.eqb (type coor) "rect" = false ->
   String.eqb (type coor') "rect" = false ->
   getIntervalRectPath points (Some "round"%string) coor style =
   getIntervalRectPath points (Some "round"%string) coor' style').
Proof.
  split.
  - intros Hw Hh Ht Hi. unfold getIntervalRectPath.
    rewrite Hw, Hh, Ht, Hi. reflexivity.
  - intros Hc Hc'. unfold getIntervalRectPath. rewrite Hc, Hc'.
    destruct (item points 2) as [p2|]; [|reflexivity].
    destruct (item points 1) as [p1|]; [|reflexivity].
    reflexivity.
Qed.

(** X10.  In its straight branch the rounded emitter never consults the
    coordinate system: two coordinate systems give the same result. *)
Theorem getIntervalRectPath_straight_ignores_coor
        (points : list Point) (lineCap : option string)
        (coor coor' : Coordinate) (style : option Style) :
  mode_of lineCap style = Straight ->
  getIntervalRectPath points lineCap coor style =
  getIntervalRectPath points lineCap coor' style.
Proof.
  unfold mode_of, getIntervalRectPath. intro Hm.
  destruct (is_round lineCap); [discriminate Hm|].
  destruct (truthy (style_radius style)); [discriminate Hm|].
  destruct (item points 2) as [p2|]; [|reflexivity].
  destruct (item points 1) as [p1|]; reflexivity.
Qed.

(** ** getIntervalRectPath: the per-corner path *)

Lemma parseRadius_four (r : NumberOrArray) :
  exists r1 r2 r3 r4 : value, parseRadius r = [r1; r2; r3; r4].
Proof.
  destruct r as [v | l]; simpl.
  - eexists _, _, _, _. reflexivity.
  - destruct (List.length l =? 1); [eexists _, _, _, _; reflexivity|].
    destruct (List.length l =? 2); [eexists _, _, _, _; reflexivity|].
    destruct (List.length l =? 3); eexists _, _, _, _; reflexivity.
Qed.

(** X11.  In per-corner mode, on four points, the returned path has six
    commands plus one arc for each radius that is not [=== 0]: between 6
    and 10 commands. *)
Theorem getIntervalRectPath_radius_length
        (p0 p1 p2 p3 : Point) (lineCap : option string)
        (coor : Coordinate) (style : option Style) :
  is_round lineCap = false ->
  truthy (style_radius style) = true ->
  exists path : Path,
    getIntervalRectPath [p0; p1; p2; p3] lineCap coor style = Ok path /\
    List.length (filter is_arc path) =
    nonzero_count (parseRadius (style_radius style)) /\
    List.length path = 6 + nonzero_count (parseRadius (style_radius style)) /\
    6 <= List.length path <= 10.
Proof.
  intros Hround Htruthy.
  rewrite getIntervalRectPath_mode. unfold mode_of.
  rewrite Hround, Htruthy. unfold path_of_mode. rewrite radiusPath_eq.
  destruct (parseRadius_four (style_radius style)) as [r1 [r2 [r3 [r4 ->]]]].
  eexists. split; [reflexivity|].
  cbn [vidx nth]. unfold nonzero_count, spec_roundedVisual, spec_cornerArc.
  cbn [filter].
  destruct (strict_neq r1 n0), (strict_neq r2 n0),
           (strict_neq r3 n0), (strict_neq r4 n0);
    cbn; repeat split; lia.
Qed.

(** X12.  A radius given as one number selects per-corner mode only when
    it is truthy, and then all four corners are rounded: the path has ten
    commands, four of them arcs whose two radii are that number. *)
Theorem getIntervalRectPath_scalar_radius
        (p0 p1 p2 p3 : Point) (lineCap : option string)
        (coor : Coordinate) (style : option Style) (v : value) :
  is_round lineCap = false ->
  style_radius style = Scalar v ->
  truthy (Scalar v) = true ->
  exists path : Path,
    getIntervalRectPath [p0; p1; p2; p3] lineCap coor style = Ok path /\
    List.length path = 10 /\
    map (firstn 3) (filter is_arc path) =
    repeat [Tag "A"; Arg v; Arg v] 4.
Proof.
  intros Hround Hs Htruthy.
  rewrite getIntervalRectPath_mode. unfold mode_of.
  rewrite Hround, Hs, Htruthy. unfold path_of_mode. rewrite radiusPath_eq, Hs.
  assert (Hv : strict_neq v n0 = true).
  { destruct v as [|n]; simpl in Htruthy; [discriminate Htruthy|].
    unfold truthy_num in Htruthy. apply andb_true_iff in Htruthy.
    simpl. exact (proj1 Htruthy). }
  eexists. split; [reflexivity|].
  cbn [parseRadius vidx nth]. unfold spec_roundedVisual, spec_cornerArc.
  rewrite Hv. split; reflexivity.
Qed.

(** X13.  An empty radius list is truthy: without round caps the rounded
    emitter takes per-corner mode with four [undefined] radii and returns
    ten commands, four of them arcs whose radii are [undefined]. *)
Theorem getIntervalRectPath_empty_radius
        (p0 p1 p2 p3 : Point) (lineCap : option string) (coor : Coordinate) :
  is_round lineCap = false ->
  exists path : Path,
    getIntervalRectPath [p0; p1; p2; p3] lineCap coor (Some (mkStyle (Arr [])))
    = Ok path /\
    List.length path = 10 /\
    map (firstn 3) (filter is_arc path) =
    repeat [Tag "A"; Arg Undefined; Arg Undefined] 4.
Proof.
  intro Hround.
  rewrite getIntervalRectPath_mode. unfold mode_of.
  rewrite Hround. cbn [style_radius radius truthy].
  unfold path_of_mode. rewrite radiusPath_eq.
  eexists. split; [reflexivity|]. split; reflexivity.
Qed.

(** ** The coordinate round trip of one command *)

Lemma slice_last2_app (pre : list elem) (a b : elem) :
  slice_last2 (pre ++ [a; b]) = [a; b] /\
  firstn (List.length (pre ++ [a; b]) - 2) (pre ++ [a; b]) = pre.
Proof.
  unfold slice_last2.
  replace (List.length (pre ++ [a; b]) - 2) with (List.length pre)
    by (rewrite length_app; simpl; lia).
  split.
  - induction pre as [|e pre IH]; [reflexivity | exact IH].
  - induction pre as [|e pre IH]; [reflexivity|].
    simpl. rewrite IH. reflexivity.
Qed.

(** X15.  The body of the [forEach] replaces the last two entries of a
    command by the two coordinates of their image under [invertPoint] and
    keeps every entry before them.  On a command of one entry, such as
    [['z']], it reads that entry and [undefined] as the pair, and the entry
    itself is lost: the result is the two coordinates of
    [invertPoint(NaN, NaN)] alone. *)
Theorem invertCommand_shape (coor : Coordinate) :
  (forall (pre : list elem) (a b : value),
      invertCommand coor (pre ++ [Arg a; Arg b]) =
      pre ++ [Arg (px (invertP coor (mkPoint a b)));
              Arg (py (invertP coor (mkPoint a b)))]) /\
  (forall (t : string) (a b : value),
      invertCommand coor [Tag t; Arg a; Arg b] =
      [Tag t;
       Arg (Num (fst (invertPoint coor (toNumber a) (toNumber b))));
       Arg (Num (snd (invertPoint coor (toNumber a) (toNumber b))))]) /\
  invertCommand coor Close =
  [Arg (Num (fst (invertPoint coor nan nan)));
   Arg (Num (snd (invertPoint coor nan nan)))].
Proof.
  split; [|split].
  - intros pre a b. unfold invertCommand, splice_last2.
    destruct (slice_last2_app pre (Arg a) (Arg b)) as [-> ->].
    unfold invertP. cbn [nth_error elemToNumber px py].
    destruct (invertPoint coor (toNumber a) (toNumber b)). reflexivity.
  - intros t a b. unfold invertCommand, splice_last2, slice_last2.
    cbn [List.length Nat.sub skipn firstn nth_error elemToNumber app].
    destruct (invertPoint coor (toNumber a) (toNumber b)). reflexivity.
  - unfold invertCommand, splice_last2, slice_last2, Close.
    cbn [List.length Nat.sub skipn firstn nth_error elemToNumber app].
    destruct (invertPoint coor nan nan). reflexivity.
Qed.

(** ** getFunnelPath: errors and how strips fit together *)

(** X16.  The funnel emitter raises a [TypeError] exactly when a list is
    too short for the branch taken: with a next-mark list, when either list
    has fewer than two points; without one, when [points] has fewer than
    three points for a pyramid and fewer than four otherwise. *)
Theorem getFunnelPath_TypeError_iff
        (points : list Point) (nextPoints : option (list Point))
        (isPyramid : bool) :
  getFunnelPath points nextPoints isPyramid = TypeError <->
  match nextPoints with
  | Some q => List.length points < 2 \/ List.length q < 2
  | None =>
      if isPyramid then List.length points < 3 else List.length points < 4
  end.
Proof.
  destruct nextPoints as [q|].
  - destruct points as [|p0 [|p1 ps]]; simpl;
      try (split; [intros _; left; lia | reflexivity]).
    destruct q as [|q0 [|q1 qs]]; simpl;
      try (split; [intros _; right; lia | reflexivity]).
    split; [discriminate | intros [H | H]; lia].
  - destruct isPyramid.
    + destruct points as [|p0 [|p1 [|p2 ps]]]; simpl;
        try (split; [intros _; lia | reflexivity]).
      split; [discriminate | lia].
    + destruct points as [|p0 [|p1 [|p2 [|p3 ps]]]]; simpl;
        try (split; [intros _; lia | reflexivity]).
      split; [discriminate | lia].
Qed.

Lemma vertices_cons (c : PathCommand) (path : Path) :
  vertices (c :: path) =
  match endpoint c with
  | Some p => [p]
  | None => []
  end ++ vertices path.
Proof. reflexivity. Qed.

Ltac fold_points :=
  repeat match goal with
         | |- context [M (px ?p) (py ?p)] =>
             change (M (px p) (py p)) with (moveTo p)
         | |- context [L (px ?p) (py ?p)] =>
             change (L (px p) (py p)) with (lineTo p)
         end.

(** X17.  Consecutive funnel strips share an edge: when the strip from
    one level to the next and the path of that next level are both
    returned, the second begins on the points [nextPoints[0]],
    [nextPoints[1]] the first ends on, visited in the opposite order. *)
Theorem getFunnelPath_strips_share_edge
        (points middle : list Point) (nextPoints : option (list Point))
        (isPyramid isPyramid' : bool) (s1 s2 : Path) :
  getFunnelPath points (Some middle) isPyramid = Ok s1 ->
  getFunnelPath middle nextPoints isPyramid' = Ok s2 ->
  firstn 2 (vertices s2) = firstn 2 middle /\
  rev (skipn 2 (vertices s1)) = firstn 2 middle /\
  List.length (firstn 2 middle) = 2.
Proof.
  intros H1 H2.
  destruct points as [|p0 [|p1 ps]]; try discriminate H1.
  destruct middle as [|q0 [|q1 qs]]; try discriminate H1.
  injection H1 as <-.
  assert (Hs2 : firstn 2 (vertices s2) = [q0; q1]).
  { destruct nextPoints as [t|].
    - destruct t as [|t0 [|t1 ts]]; try discriminate H2.
      injection H2 as <-. cbn [app]. fold_points.
      rewrite !vertices_cons, endpoint_moveTo, !endpoint_lineTo. reflexivity.
    - destruct isPyramid'.
      + destruct qs as [|q2 qs]; try discriminate H2.
        injection H2 as <-. cbn [app]. fold_points.
        rewrite !vertices_cons, endpoint_moveTo, !endpoint_lineTo.
        reflexivity.
      + destruct qs as [|q2 [|q3 qs]]; try discriminate H2.
        injection H2 as <-. cbn [app]. fold_points.
        rewrite !vertices_cons, endpoint_moveTo, !endpoint_lineTo.
        reflexivity. }
  split; [exact Hs2|]. split; [|reflexivity].
  cbn [app]. fold_points.
  rewrite !vertices_cons, endpoint_moveTo, !endpoint_lineTo. reflexivity.
Qed.

(** X18.  Without a next-mark list the funnel emitter returns the open
    straight path on the same points followed by ['Z'] (four points), or
    by a second [Line] to the apex and ['Z'] (the three points of a
    pyramid): unlike the closed straight path it draws no [Line] back to
    the first point. *)
Theorem getFunnelPath_terminal_is_open_path :
  (forall p0 p1 p2 p3 : Point,
      exists opened : Path,
        getRectPath [p0; p1; p2; p3] (Some false) = Ok opened /\
        getFunnelPath [p0; p1; p2; p3] None false = Ok (opened ++ [CloseZ]) /\
        getRectPath [p0; p1; p2; p3] (Some true) =
        Ok (opened ++ [lineTo p0; Close])) /\
  (forall p0 p1 p2 : Point,
      exists opened : Path,
        getRectPath [p0; p1; p2] (Some false) = Ok opened /\
        getFunnelPath [p0; p1; p2] None true =
        Ok (opened ++ [lineTo p2; CloseZ])).
Proof.
  split; intros; eexists; rewrite !getRectPath_cons;
    (split; [reflexivity|]); try split; reflexivity.
Qed.

(** ** From a ShapePoint to a path *)

Lemma getRectPoints_shape (sp : ShapePoint) (isPyramid : option bool) :
  exists p0 p1 p2 p3 : Point,
    getRectPoints sp isPyramid =
    if default false isPyramid then [p0; p1; p2] else [p0; p1; p2; p3].
Proof.
  rewrite getRectPoints_unfold.
  destruct (spec_yExtent sp) as [yMin yMax].
  destruct (spec_xExtent sp) as [xMin xMax].
  destruct (default false isPyramid).
  - eexists _, _, _, (mkPoint xMax yMin). reflexivity.
  - eexists _, _, _, _. reflexivity.
Qed.

(** X19.  The emitters on the points of any ShapePoint, well formed or
    not.  The four points of a rectangle never make the rounded emitter
    raise.  The three points of a pyramid make it raise exactly in
    round-cap and per-corner mode.  The funnel emitter without a next-mark
    list returns on the points derived with the same [isPyramid] flag, and
    raises on a pyramid's points when called without the flag. *)
Theorem emitters_on_derived_points
        (sp : ShapePoint) (isPyramid : option bool) (lineCap : option string)
        (coor : Coordinate) (style : option Style) :
  (default false isPyramid = false ->
   exists path : Path,
     getIntervalRectPath (getRectPoints sp isPyramid) lineCap coor style
     = Ok path) /\
  (default false isPyramid = true ->
   (getIntervalRectPath (getRectPoints sp isPyramid) lineCap coor style
    = TypeError <-> mode_of lineCap style <> Straight)) /\
  (exists path : Path,
      getFunnelPath (getRectPoints sp isPyramid) None
                    (default false isPyramid) = Ok path) /\
  (default false isPyramid = true ->
   getFunnelPath (getRectPoints sp isPyramid) None false = TypeError).
Proof.
  destruct (getRectPoints_shape sp isPyramid) as [p0 [p1 [p2 [p3 ->]]]].
  destruct (default false isPyramid).
  - split; [discriminate|]. split; [intros _|split; [|reflexivity]].
    + rewrite getIntervalRectPath_mode_ge3. cbv zeta.
      destruct (mode_of lineCap style).
      * rewrite roundCapPath_3. split; [discriminate | reflexivity].
      * rewrite radiusPath_3. split; [discriminate | reflexivity].
      * rewrite getRectPath_cons. split; [discriminate | congruence].
    + eexists. reflexivity.
  - split; [intros _|split; [discriminate|split; [|discriminate]]].
    + rewrite getIntervalRectPath_mode. apply path_of_mode_Ok.
    + eexists. reflexivity.
Qed.

(** X20.  End to end in the straight branch: for any ShapePoint the
    rounded emitter on the derived rectangle returns the closed path
    [(xMin,yMin)], [(xMin,yMax)], [(xMax,yMax)], [(xMax,yMin)], back to
    [(xMin,yMin)], [Close]. *)
Theorem straight_rectangle_of_shapePoint
        (sp : ShapePoint) (isPyramid : option bool) (lineCap : option string)
        (coor : Coordinate) (style : option Style) :
  default false isPyramid = false ->
  mode_of lineCap style = Straight ->
  let xMin := fst (spec_xExtent sp) in
  let xMax := snd (spec_xExtent sp) in
  let yMin := fst (spec_yExtent sp) in
  let yMax := snd (spec_yExtent sp) in
  getIntervalRectPath (getRectPoints sp isPyramid) lineCap coor style =
  Ok [M xMin yMin; L xMin yMax; L xMax yMax; L xMax yMin; L xMin yMin; Close].
Proof.
  intros Hp Hm xMin xMax yMin yMax. subst xMin xMax yMin yMax.
  rewrite getRectPoints_unfold, Hp.
  destruct (spec_yExtent sp) as [yMin yMax].
  destruct (spec_xExtent sp) as [xMin xMax].
  rewrite getIntervalRectPath_mode, Hm. unfold path_of_mode.
  rewrite getRectPath_cons. reflexivity.
Qed.

End Coverage.

(* ================================================================== *)
(** * On doubles *)

(** ** Laws of binary64 arithmetic *)

(** A double that is [=== 0] is one of the two zeros. *)
Lemma f64_eqb_zero (r : PrimFloat.float) :
  PrimFloat.eqb r PrimFloat.zero = true ->
  exists s : bool, FloatOps.Prim2SF r = SpecFloat.S754_zero s.
Proof.
  rewrite FloatAxioms.eqb_spec.
  change (FloatOps.Prim2SF PrimFloat.zero) with (SpecFloat.S754_zero false).
  destruct (FloatOps.Prim2SF r) as [s | s | | s m e];
    unfold SpecFloat.SFeqb; simpl.
  - intros _. exists s. reflexivity.
  - destruct s; discriminate.
  - discriminate.
  - destruct s; discriminate.
Qed.

(** Adding or subtracting a zero gives the same double, or the zero of
    the other sign. *)
Lemma f64_zero_shift : @zero_shift_law Float64.
Proof.
  intros r a H. destruct (@f64_eqb_zero r H) as [s Hs].
  unfold same_number. simpl.
  destruct (FloatOps.Prim2SF a) as [sa | sa | | sa m e] eqn:Ea; split;
    try (left; apply FloatAxioms.Prim2SF_inj;
         rewrite ?FloatAxioms.add_spec, ?FloatAxioms.sub_spec, Ea, Hs;
         reflexivity);
    right; left;
    rewrite FloatAxioms.eqb_spec,
      ?FloatAxioms.add_spec, ?FloatAxioms.sub_spec, Ea, Hs;
    destruct sa, s; reflexivity.
Qed.

Lemma SFadd_comm (x y : SpecFloat.spec_float) :
  FloatAxioms.SF64add x y = FloatAxioms.SF64add y x.
Proof.
  unfold FloatAxioms.SF64add, SpecFloat.SFadd.
  destruct x as [sx | sx | | sx mx ex], y as [sy | sy | | sy my ey];
    try reflexivity;
    try (destruct sx, sy; reflexivity).
  rewrite (Z.min_comm ex ey). f_equal. apply Z.add_comm.
Qed.

(** Addition of doubles commutes. *)
Lemma f64_add_comm : forall a b : @num Float64, add a b = add b a.
Proof.
  intros a b. simpl. apply FloatAxioms.Prim2SF_inj.
  rewrite !FloatAxioms.add_spec. apply SFadd_comm.
Qed.

Lemma unit_coor_left_inverse : left_inverse unit_coor.
Proof. intros a b. reflexivity. Qed.

Lemma unit_coor_respects_same : respects_same (invertPoint unit_coor).
Proof. intros a b a' b' Ha Hb. split; assumption. Qed.

(** ** getIntervalRectPath: per-corner radii *)


(** ** getIntervalRectPath: radii that are all zero *)

(** C8.  On four key points and with all four radii [=== 0] ([lineCap]
    not ['round']) the per-corner mode returns a path that is the straight
    emitter's closed rectangle up to the sign of a zero: it has no arc and
    the same sequence of commands, a [Move], four [Line]s and [Close]; in
    visual space it visits the same points as the converted bottom-left,
    top-left, top-right and bottom-right corners and the bottom-left one
    again, which are the points the straight path visits, converted; and
    for a coordinate system whose [invertPoint] is a left inverse of
    [convert] (and sends the same point to the same point) the returned
    path visits the same points as the straight emitter's. *)
Theorem getIntervalRectPath_zero_radii
        (a0 b0 a1 b1 a2 b2 a3 b3 : PrimFloat.float) (lineCap : option string)
        (coor : @Coordinate Float64) (rad : @NumberOrArray Float64) :
  lineCap <> Some "round"%string ->
  radius_truthy rad ->
  Forall (fun r => is_zero_radius r = true) (parseRadius rad) ->
  let q0 : @Point Float64 := mkPoint (Num a0) (Num b0) in
  let q1 : @Point Float64 := mkPoint (Num a1) (Num b1) in
  let q2 : @Point Float64 := mkPoint (Num a2) (Num b2) in
  let q3 : @Point Float64 := mkPoint (Num a3) (Num b3) in
  let points := [q0; q1; q2; q3] in
  let c0 := convertP coor q0 in
  let c1 := convertP coor q1 in
  let c2 := convertP coor q2 in
  let c3 := convertP coor q3 in
  exists visual path straight : Path,
    radiusVisualPath points coor rad = Ok visual /\
    getIntervalRectPath points lineCap coor (Some (mkStyle rad)) = Ok path /\
    getRectPath points (Some true) = Ok straight /\
    path = map (spec_invertTrailing coor) visual ++ [Close] /\
    filter is_arc visual = [] /\
    filter is_arc path = [] /\
    map (firstn 1) path = map (firstn 1) straight /\
    vertices straight = [q0; q1; q2; q3; q0] /\
    Forall2 same_point (vertices visual)
            (map (convertP coor) (vertices straight)) /\
    (left_inverse coor -> respects_same (invertPoint coor) ->
     Forall2 same_point (vertices path) (vertices straight)) /\
    last path [] = Close.
Proof.
  intros Hround Htruthy Hzero q0 q1 q2 q3 points c0 c1 c2 c3.
  destruct (parseRadius_four rad) as [r1 [r2 [r3 [r4 Hrs]]]].
  rewrite Hrs in Hzero.
  inversion Hzero as [|? ? E1 Hz1]; subst.
  inversion Hz1 as [|? ? E2 Hz2]; subst.
  inversion Hz2 as [|? ? E3 Hz3]; subst.
  inversion Hz3 as [|? ? E4 _]; subst.
  destruct (@spec_roundedVisual_zero Float64 c0 c1 c2 c3 r1 r2 r3 r4
              E1 E2 E3 E4) as [Hv Hsame].
  specialize (Hsame f64_zero_shift (convertP_num coor q0)
                (convertP_num coor q1) (convertP_num coor q2)
                (convertP_num coor q3)).
  assert (Hvis : radiusVisualPath points coor rad =
                 Ok (spec_roundedVisual c0 c1 c2 c3 r1 r2 r3 r4)).
  { subst points. rewrite radiusVisualPath_eq, Hrs. reflexivity. }
  assert (Hst : vertices
                  (moveTo q0 :: map lineTo [q1; q2; q3] ++ [lineTo q0; Close]) =
                [q0; q1; q2; q3; q0]) by reflexivity.
  exists (spec_roundedVisual c0 c1 c2 c3 r1 r2 r3 r4).
  exists (map (spec_invertTrailing coor)
              (spec_roundedVisual c0 c1 c2 c3 r1 r2 r3 r4) ++ [Close]).
  exists (moveTo q0 :: map lineTo [q1; q2; q3] ++ [lineTo q0; Close]).
  split; [exact Hvis|].
  split.
  { subst points.
    rewrite (getIntervalRectPath_radius_branch _ _ _ _ _ _ Hround).
    rewrite (radius_truthy_truthy _ Htruthy), radiusPath_eq, Hrs.
    reflexivity. }
  split; [subst points; rewrite getRectPath_cons; reflexivity|].
  split; [reflexivity|].
  split; [rewrite Hv; reflexivity|].
  split; [rewrite Hv; reflexivity|].
  split; [rewrite Hv; reflexivity|].
  split; [exact Hst|].
  split; [rewrite Hst; exact Hsame|].
  split; [|apply last_last].
  intros Hinv Hresp. rewrite Hst.
  rewrite Hv in Hsame |- *.
  change (vertices
            (map (spec_invertTrailing coor)
               [M (px c0) (vsub (py c0) r1); L (px c1) (vadd (py c1) r2);
                L (vsub (px c2) r3) (py c2); L (px c3) (vsub (py c3) r4);
                L (vadd (px c0) r1) (py c0)] ++ [Close]))
    with (map (fun v => mkPoint (px (invertP coor v)) (py (invertP coor v)))
              [mkPoint (px c0) (vsub (py c0) r1);
               mkPoint (px c1) (vadd (py c1) r2);
               mkPoint (vsub (px c2) r3) (py c2);
               mkPoint (px c3) (vsub (py c3) r4);
               mkPoint (vadd (px c0) r1) (py c0)]).
  change (vertices
            [M (px c0) (vsub (py c0) r1); L (px c1) (vadd (py c1) r2);
             L (vsub (px c2) r3) (py c2); L (px c3) (vsub (py c3) r4);
             L (vadd (px c0) r1) (py c0)])
    with [mkPoint (px c0) (vsub (py c0) r1);
          mkPoint (px c1) (vadd (py c1) r2);
          mkPoint (vsub (px c2) r3) (py c2);
          mkPoint (px c3) (vsub (py c3) r4);
          mkPoint (vadd (px c0) r1) (py c0)] in Hsame.
  assert (Hback : forall (v : Point) (a b : PrimFloat.float),
             same_point v (convertP coor (mkPoint (Num a) (Num b))) ->
             same_point (mkPoint (px (invertP coor v)) (py (invertP coor v)))
                        (mkPoint (Num a) (Num b))).
  { intros v a b Hs. rewrite point_eta.
    rewrite <- (@invertP_convertP Float64 coor a b Hinv).
    apply invertP_respects; assumption. }
  cbn [map].
  inversion Hsame as [|? ? ? ? S0 T0]; subst.
  inversion T0 as [|? ? ? ? S1 T1]; subst.
  inversion T1 as [|? ? ? ? S2 T2]; subst.
  inversion T2 as [|? ? ? ? S3 T3]; subst.
  inversion T3 as [|? ? ? ? S4 _]; subst.
  repeat constructor; apply Hback; assumption.
Qed.

(** ** getIntervalRectPath: corners of radius zero *)

Lemma invertP_back (coor : @Coordinate Float64) (v : Point)
      (a b : PrimFloat.float) :
  left_inverse coor ->
  respects_same (invertPoint coor) ->
  same_point v (convertP coor (mkPoint (Num a) (Num b))) ->
  same_point (invertP coor v) (mkPoint (Num a) (Num b)).
Proof.
  intros Hinv Hresp Hs.
  rewrite <- (@invertP_convertP Float64 coor a b Hinv).
  apply invertP_respects; assumption.
Qed.

(** X14.  A corner whose radius is [=== 0] stays sharp.  In per-corner
    mode on doubles, for a coordinate system whose [invertPoint] is a left
    inverse of [convert] and sends the same point to the same point, the
    returned path holds a [Line] to the same point as the key point of
    every corner of radius zero, and when the bottom-left radius is zero it
    begins with a [Move] to the same point as the bottom-left key point. *)
Theorem getIntervalRectPath_sharp_corners
        (a0 b0 a1 b1 a2 b2 a3 b3 : PrimFloat.float) (lineCap : option string)
        (coor : @Coordinate Float64) (rad : @NumberOrArray Float64) :
  lineCap <> Some "round"%string ->
  radius_truthy rad ->
  left_inverse coor ->
  respects_same (invertPoint coor) ->
  let q0 : @Point Float64 := mkPoint (Num a0) (Num b0) in
  let q1 : @Point Float64 := mkPoint (Num a1) (Num b1) in
  let q2 : @Point Float64 := mkPoint (Num a2) (Num b2) in
  let q3 : @Point Float64 := mkPoint (Num a3) (Num b3) in
  let rs := parseRadius rad in
  exists path : Path,
    getIntervalRectPath [q0; q1; q2; q3] lineCap coor (Some (mkStyle rad))
    = Ok path /\
    (is_zero_radius (vidx rs 0) = true ->
     exists (d e : Point) (rest : Path),
       path = moveTo d :: rest /\ same_point d q0 /\
       In (lineTo e) path /\ same_point e q0) /\
    (is_zero_radius (vidx rs 1) = true ->
     exists d : Point, In (lineTo d) path /\ same_point d q1) /\
    (is_zero_radius (vidx rs 2) = true ->
     exists d : Point, In (lineTo d) path /\ same_point d q2) /\
    (is_zero_radius (vidx rs 3) = true ->
     exists d : Point, In (lineTo d) path /\ same_point d q3).
Proof.
  intros Hround Htruthy Hinv Hresp q0 q1 q2 q3 rs.
  set (c0 := convertP coor q0). set (c1 := convertP coor q1).
  set (c2 := convertP coor q2). set (c3 := convertP coor q3).
  set (visual := spec_roundedVisual c0 c1 c2 c3
                   (vidx rs 0) (vidx rs 1) (vidx rs 2) (vidx rs 3)).
  exists (map (spec_invertTrailing coor) visual ++ [Close]).
  split.
  { rewrite (getIntervalRectPath_radius_branch _ _ _ _ _ _ Hround).
    rewrite (radius_truthy_truthy _ Htruthy). apply radiusPath_eq. }
  assert (Hline : forall (a b : value) (q : Point),
             In (L a b) visual ->
             same_point (invertP coor (mkPoint a b)) q ->
             exists d : Point,
               In (lineTo d)
                  (map (spec_invertTrailing coor) visual ++ [Close]) /\
               same_point d q).
  { intros a b q Hin Hs. exists (invertP coor (mkPoint a b)).
    split; [|exact Hs].
    apply in_or_app. left.
    change (lineTo (invertP coor (mkPoint a b)))
      with (spec_invertTrailing coor (L a b)).
    apply in_map. exact Hin. }
  destruct (convertP_num coor q0) as [Hx0 Hy0].
  destruct (convertP_num coor q1) as [Hx1 Hy1].
  destruct (convertP_num coor q2) as [Hx2 Hy2].
  destruct (convertP_num coor q3) as [Hx3 Hy3].
  fold c0 in Hx0, Hy0. fold c1 in Hx1, Hy1.
  fold c2 in Hx2, Hy2. fold c3 in Hx3, Hy3.
  split; [|split; [|split]].
  - intro E.
    destruct (zero_shift_value f64_zero_shift (vidx rs 0) (px c0) E Hx0)
      as [Hax _].
    destruct (zero_shift_value f64_zero_shift (vidx rs 0) (py c0) E Hy0)
      as [_ Hsy].
    destruct (Hline (vadd (px c0) (vidx rs 0)) (py c0) q0) as [e [He1 He2]].
    + subst visual. unfold spec_roundedVisual. rewrite !in_app_iff.
      simpl. tauto.
    + apply invertP_back; try assumption.
      split; [exact Hax | apply same_value_refl].
    + exists (invertP coor (mkPoint (px c0) (vsub (py c0) (vidx rs 0)))), e.
      eexists. split; [reflexivity|].
      split; [|split; assumption].
      apply invertP_back; try assumption.
      split; [apply same_value_refl | exact Hsy].
  - intro E.
    destruct (zero_shift_value f64_zero_shift (vidx rs 1) (py c1) E Hy1)
      as [Hay _].
    apply (Hline (px c1) (vadd (py c1) (vidx rs 1))).
    + subst visual. unfold spec_roundedVisual. rewrite !in_app_iff.
      simpl. tauto.
    + apply invertP_back; try assumption.
      split; [apply same_value_refl | exact Hay].
  - intro E.
    destruct (zero_shift_value f64_zero_shift (vidx rs 2) (px c2) E Hx2)
      as [_ Hsx].
    apply (Hline (vsub (px c2) (vidx rs 2)) (py c2)).
    + subst visual. unfold spec_roundedVisual. rewrite !in_app_iff.
      simpl. tauto.
    + apply invertP_back; try assumption.
      split; [exact Hsx | apply same_value_refl].
  - intro E.
    destruct (zero_shift_value f64_zero_shift (vidx rs 3) (py c3) E Hy3)
      as [_ Hsy].
    apply (Hline (px c3) (vsub (py c3) (vidx rs 3))).
    + subst visual. unfold spec_roundedVisual. rewrite !in_app_iff.
      simpl. tauto.
    + apply invertP_back; try assumption.
      split; [apply same_value_refl | exact Hsy].
Qed.

(** ** The theorems at concrete inputs *)

(** The bar at [x = 10], [size = 4], [y0 = 2], [y = 6]: as a pyramid the
    points (8,2), (8,6) and the apex (12,4); otherwise the corners (8,2),
    (8,6), (12,6), (12,2). *)
Lemma getRectPoints_spec_witness :
  getRectPoints bar (Some true) = [fpt 8 2; fpt 8 6; fpt 12 4] /\
  getRectPoints bar (Some true) = spec_rectPoints bar true /\
  getRectPoints bar (Some false) = [fpt 8 2; fpt 8 6; fpt 12 6; fpt 12 2] /\
  getRectPoints bar None = [fpt 8 2; fpt 8 6; fpt 12 6; fpt 12 2].
Proof.
  destruct (@getRectPoints_spec Float64 bar) as [Ht [Hf [Hn [Hs _]]]].
  split; [rewrite Ht; reflexivity|].
  split; [exact (Hs f64_add_comm)|].
  split; [rewrite Hf; reflexivity|].
  rewrite Hn, Hf. reflexivity.
Defined.

Lemma getRectPath_spec_witness :
  exists (p0 : Point) (rest : list Point) (opened closed : Path),
    square = p0 :: rest /\
    getRectPath square (Some false) = Ok opened /\
    getRectPath square (Some true) = Ok closed /\
    getRectPath square None = Ok closed /\
    opened = moveTo p0 :: map lineTo rest /\
    closed = moveTo p0 :: map lineTo rest ++ [lineTo p0; Close] /\
    List.length opened = 4 /\
    List.length closed = 6.
Proof.
  apply (@getRectPath_spec Float64 square). discriminate.
Defined.

Lemma getFunnelPath_next_only_witness :
  exists path : Path,
    getFunnelPath square (Some square) true = Ok path /\
    getFunnelPath [fpt 0 0; fpt 0 2; fpt 7 7] (Some [fpt 0 0; fpt 0 2]) false
    = Ok path /\
    getFunnelPath square (Some square) (negb true) = Ok path.
Proof.
  apply (@getFunnelPath_next_only Float64
           square [fpt 0 0; fpt 0 2; fpt 7 7] square [fpt 0 0; fpt 0 2]
           true false);
    simpl; try lia; reflexivity.
Defined.


Lemma getIntervalRectPath_modes_witness :
  getIntervalRectPath square (Some "round"%string) unit_coor style_one =
  roundCapPath square true (fl 1) (fl 1) /\
  getIntervalRectPath square (Some "butt"%string) unit_coor style_one =
  radiusPath square unit_coor (Scalar (fl 1)) /\
  getIntervalRectPath square (Some "butt"%string) unit_coor style_zero =
  getRectPath square (Some true) /\
  getIntervalRectPath square None unit_coor None =
  getRectPath square (Some true).
Proof.
  destruct (@getIntervalRectPath_modes Float64
              (fpt 0 0) (fpt 0 2) (fpt 2 2) (fpt 2 0) unit_coor)
    as [Hr [Ht [Hf [Hn _]]]].
  split; [exact (Hr style_one)|].
  split.
  { apply (Ht (Some "butt"%string) (Scalar (fl 1))).
    - discriminate.
    - split; reflexivity. }
  split.
  { apply (Hf (Some "butt"%string) (Scalar (fl 0))).
    - discriminate.
    - left. reflexivity. }
  apply (Hn None). discriminate.
Defined.

(** Radii [[0, 0, 0, 0]] on the square with its left edge at [-0]: no
    arc, and the same points as the straight rectangle. *)
Lemma getIntervalRectPath_zero_radii_witness :
  exists path straight : Path,
    getIntervalRectPath signed_square (Some "butt"%string) unit_coor style_zeros
    = Ok path /\
    getRectPath signed_square (Some true) = Ok straight /\
    filter is_arc path = [] /\
    map (firstn 1) path = map (firstn 1) straight /\
    Forall2 same_point (vertices path) (vertices straight).
Proof.
  destruct (@getIntervalRectPath_zero_radii
              PrimFloat.neg_zero (float_of_Z 0) PrimFloat.neg_zero (float_of_Z 2)
              (float_of_Z 2) (float_of_Z 2) (float_of_Z 2) (float_of_Z 0)
              (Some "butt"%string) unit_coor (Arr [lit 0; lit 0; lit 0; lit 0])
              ltac:(discriminate) I ltac:(repeat constructor))
    as [visual [path [straight
          [_ [H2 [H3 [_ [_ [H6 [H7 [_ [_ [H10 _]]]]]]]]]]]]].
  exists path, straight.
  split; [exact H2|]. split; [exact H3|]. split; [exact H6|].
  split; [exact H7|].
  exact (H10 unit_coor_left_inverse unit_coor_respects_same).
Defined.

Lemma operations_total_witness :
  (exists a b c d : num,
      parseRadius (Arr [lit 1; lit 2; lit 3]) = [Num a; Num b; Num c; Num d]) /\
  Forall num_point (getRectPoints bar (Some true)) /\
  (exists path : Path, getRectPath square (Some false) = Ok path) /\
  (exists path : Path,
      getIntervalRectPath square None shift_coor style_one = Ok path) /\
  (exists path : Path, getFunnelPath square None true = Ok path).
Proof.
  destruct (@operations_total Float64) as [H1 [H2 [H3 [H4 H5]]]].
  split; [|split; [|split; [|split]]].
  - apply H1. simpl. lia.
  - apply H2. repeat split.
  - apply H3. discriminate.
  - apply (H4 square None shift_coor style_one); [reflexivity|].
    left. exact I.
  - apply H5; [reflexivity | exact I].
Defined.

(** The end-to-end scenario of the specification: a bar at [x = 5] of
    [size] 2 from [y0 = 0] to [y = 10], no radius and no line cap, gives the
    closed rectangle (4,0), (4,10), (6,10), (6,0). *)
Example bar_rectangle :
  getIntervalRectPath
    (getRectPoints (mkShapePoint (Scalar (fl 5)) (Scalar (fl 10)) (fl 0) (fl 2))
                   None)
    None shift_coor None =
  Ok [moveTo (fpt 4 0); lineTo (fpt 4 10); lineTo (fpt 6 10); lineTo (fpt 6 0);
      lineTo (fpt 4 0); Close].
Proof. reflexivity. Qed.

(** ** A radius of zero is not per-corner mode *)

(** C3, as stated, fails.  The style [{ radius: 0 }] specifies a radius and
    [lineCap] is absent, so the specification selects the per-corner mode;
    the source tests the radius for truthiness and returns what the straight
    emitter returns.  On the identity coordinate system and the square with
    its left edge at [x = -0] the two paths differ: the straight path ends
    with a [Line] to (-0, 0), the per-corner path with a [Line] to (+0, 0),
    as [-0 + 0] is [+0]. *)
Lemma spec_mode_counterexample :
  @None string <> Some "round"%string /\
  spec_specifies_radius style_zero = true /\
  spec_mode None style_zero = PerCorner /\
  left_inverse unit_coor /\
  getIntervalRectPath signed_square None unit_coor style_zero =
  getRectPath signed_square (Some true) /\
  getIntervalRectPath signed_square None unit_coor style_zero <>
  path_of_mode (spec_mode None style_zero)
               (npt 0)
               (npt 2)
               (fpt 2 2) (fpt 2 0) unit_coor style_zero.
Proof.
  split; [discriminate|]. split; [reflexivity|]. split; [reflexivity|].
  split; [exact unit_coor_left_inverse|]. split; [reflexivity|].
  intro H. apply (f_equal classes) in H. vm_compute in H. discriminate H.
Qed.

(** ** The further properties at concrete inputs *)

Lemma getRectPath_round_trip_witness :
  exists opened closed : Path,
    getRectPath square (Some false) = Ok opened /\
    getRectPath square (Some true) = Ok closed /\
    vertices opened = square /\
    vertices closed = square ++ [fpt 0 0].
Proof.
  apply (@getRectPath_round_trip Float64 square). discriminate.
Defined.

Lemma getRectPath_injective_witness :
  firstn 4 (square ++ tip) = square.
Proof.
  apply (@getRectPath_injective Float64
           (firstn 4 (square ++ tip)) square (Some false)).
  - discriminate.
  - reflexivity.
Defined.

Lemma getRectPath_closed_extends_open_witness :
  exists (p0 : Point) (opened closed : Path),
    hd_error tip = Some p0 /\
    getRectPath tip (Some false) = Ok opened /\
    getRectPath tip (Some true) = Ok closed /\
    closed = opened ++ [lineTo p0; Close] /\
    filter is_arc closed = [] /\
    filter is_move closed = [moveTo p0] /\
    hd_error closed = Some (moveTo p0).
Proof.
  apply (@getRectPath_closed_extends_open Float64 tip). discriminate.
Defined.

Lemma getIntervalRectPath_first_four_witness :
  getIntervalRectPath (square ++ tip) (Some "round"%string) shift_coor None =
  getIntervalRectPath square (Some "round"%string) shift_coor None.
Proof.
  apply (@getIntervalRectPath_first_four Float64
           (fpt 0 0) (fpt 0 2) (fpt 2 2) (fpt 2 0) tip
           (Some "round"%string) shift_coor None).
  discriminate.
Defined.

Lemma getIntervalRectPath_straight_ignores_coor_witness :
  getIntervalRectPath square None shift_coor style_zero =
  getIntervalRectPath square None skew_coor style_zero.
Proof.
  apply (@getIntervalRectPath_straight_ignores_coor Float64
           square None shift_coor skew_coor style_zero).
  reflexivity.
Defined.

Lemma getIntervalRectPath_radius_length_witness :
  exists path : Path,
    getIntervalRectPath square None shift_coor
      (Some (mkStyle (Arr [lit 0; lit 1]))) = Ok path /\
    List.length path = 8.
Proof.
  destruct (@getIntervalRectPath_radius_length Float64
              (fpt 0 0) (fpt 0 2) (fpt 2 2) (fpt 2 0) None shift_coor
              (Some (mkStyle (Arr [lit 0; lit 1]))) eq_refl eq_refl)
    as [path [H1 [_ [H3 _]]]].
  exists path. split; [exact H1 | exact H3].
Defined.

Lemma getIntervalRectPath_scalar_radius_witness :
  exists path : Path,
    getIntervalRectPath square None shift_coor style_one = Ok path /\
    List.length path = 10 /\
    map (firstn 3) (filter is_arc path) =
    repeat [Tag "A"; Arg (fl 1); Arg (fl 1)] 4.
Proof.
  apply (@getIntervalRectPath_scalar_radius Float64
           (fpt 0 0) (fpt 0 2) (fpt 2 2) (fpt 2 0) None shift_coor style_one
           (fl 1)); reflexivity.
Defined.

Lemma getIntervalRectPath_empty_radius_witness :
  exists path : Path,
    getIntervalRectPath square None shift_coor (Some (mkStyle (Arr [])))
    = Ok path /\
    List.length path = 10 /\
    map (firstn 3) (filter is_arc path) =
    repeat [Tag "A"; Arg Undefined; Arg Undefined] 4.
Proof.
  apply (@getIntervalRectPath_empty_radius Float64
           (fpt 0 0) (fpt 0 2) (fpt 2 2) (fpt 2 0) None shift_coor).
  reflexivity.
Defined.

Lemma getIntervalRectPath_sharp_corners_witness :
  exists path : Path,
    getIntervalRectPath signed_square (Some "butt"%string) unit_coor
      (Some (mkStyle (Arr [lit 0; lit 1]))) = Ok path /\
    (exists (d e : Point) (rest : Path),
        path = moveTo d :: rest /\
        same_point d (npt 0) /\
        In (lineTo e) path /\
        same_point e (npt 0)) /\
    (exists d : Point, In (lineTo d) path /\ same_point d (fpt 2 2)).
Proof.
  destruct (@getIntervalRectPath_sharp_corners
              PrimFloat.neg_zero (float_of_Z 0) PrimFloat.neg_zero (float_of_Z 2)
              (float_of_Z 2) (float_of_Z 2) (float_of_Z 2) (float_of_Z 0)
              (Some "butt"%string) unit_coor (Arr [lit 0; lit 1])
              ltac:(discriminate) I
              unit_coor_left_inverse unit_coor_respects_same)
    as [path [H [H0 [_ [H2 _]]]]].
  exists path. split; [exact H|].
  split; [exact (H0 eq_refl) | exact (H2 eq_refl)].
Defined.

Lemma getFunnelPath_strips_share_edge_witness :
  exists s1 s2 : Path,
    getFunnelPath square (Some lower) false = Ok s1 /\
    getFunnelPath lower None false = Ok s2 /\
    firstn 2 (vertices s2) = [fpt 2 0; fpt 2 2] /\
    rev (skipn 2 (vertices s1)) = [fpt 2 0; fpt 2 2].
Proof.
  eexists. eexists. split; [reflexivity|]. split; [reflexivity|].
  destruct (@getFunnelPath_strips_share_edge Float64
              square lower None false false _ _ eq_refl eq_refl)
    as [H1 [H2 _]].
  split; [exact H1 | exact H2].
Defined.

Lemma straight_rectangle_of_shapePoint_witness :
  getIntervalRectPath (getRectPoints bar None) None shift_coor None =
  Ok [moveTo (fpt 8 2); lineTo (fpt 8 6); lineTo (fpt 12 6); lineTo (fpt 12 2);
      lineTo (fpt 8 2); Close].
Proof.
  apply (@straight_rectangle_of_shapePoint Float64
           bar None None shift_coor None); reflexivity.
Defined.
